(** * Docker Compose version tooling: embedding and verified properties

    A shallow embedding of the version-resolution and compose-patching
    scripts
      - [check_docker_versions.py]      (module [CheckDockerVersions])
      - [version_number_collector.py]   (module [VersionNumberCollector])
      - [add_version_comments.py]       (module [AddVersionComments])
      - [version_docker_compose.py]     (module [VersionDockerCompose])
      - [update_compose_versions.py]    (module [UpdateComposeVersions])
    followed by the properties established about them.

    Conventions.  A Python [str] is a [text], a list of characters; a
    character is a code point below 256 and the character classes are the ones
    Python's [re] and [str] methods use on that range.  A Python [dict] that
    is only looked up (the [container_versions] object read from JSON) is a
    [gmap]; a dict whose insertion order is observable is an association
    list.  JSON [null] / Python [None] as a dictionary value is [None] in an
    [option].  The third-party functions [packaging.version.parse] and
    [yaml.safe_load] are not part of the repository: the first is an
    interface ([PackagingVersion]), the result of the second is an input of
    the functions that receive it, as in the source. *)

From Stdlib Require Import Ascii String List Bool Arith NArith Lia.
From stdpp Require Import base decidable option list gmap strings.
Import ListNotations.

(** ** Text *)

Abbreviation text := (list ascii).

Definition str (s : string) : text := list_ascii_of_string s.
Arguments str : simpl never.

Definition code (c : ascii) : nat := nat_of_ascii c.

(** The line feed, ["\n"] in the source. *)
Definition LF : ascii := ascii_of_nat 10.

Definition in_range (lo hi : nat) (c : ascii) : bool :=
  (lo <=? code c) && (code c <=? hi).

Definition is_code (n : nat) (c : ascii) : bool := code c =? n.

(** [\d]: the decimal digits (Unicode category Nd). *)
Definition is_decimal (c : ascii) : bool := in_range 48 57 c.

(** [\s]: Unicode white space. *)
Definition is_space (c : ascii) : bool :=
  in_range 9 13 c || in_range 28 32 c || is_code 133 c || is_code 160 c.

(** [\w]: alphanumeric characters and the underscore. *)
Definition is_word (c : ascii) : bool :=
  in_range 48 57 c || in_range 65 90 c || in_range 97 122 c || is_code 95 c
  || is_code 170 c || is_code 178 c || is_code 179 c || is_code 181 c
  || in_range 185 186 c || in_range 188 190 c
  || in_range 192 214 c || in_range 216 246 c || in_range 248 255 c.

(** [.] without DOTALL: everything but the line feed. *)
Definition is_dot (c : ascii) : bool := negb (is_code 10 c).

(** [str.isdigit]: the decimal digits and the superscripts 1, 2, 3. *)
Definition isdigit (c : ascii) : bool :=
  in_range 48 57 c || in_range 178 179 c || is_code 185 c.

(** Line boundaries of [str.splitlines]. *)
Definition is_linebreak (c : ascii) : bool :=
  in_range 10 13 c || in_range 28 30 c || is_code 133 c.

Definition text_eqb (a b : text) : bool := bool_decide (a = b).

(** [lit in s] for a one-character [lit]. *)
Definition contains_char (n : nat) (s : text) : bool := existsb (is_code n) s.

(** [s.startswith(p)] *)
Fixpoint startswith (p s : text) : bool :=
  match p, s with
  | [], _ => true
  | a :: p', b :: s' => bool_decide (a = b) && startswith p' s'
  | _ :: _, [] => false
  end.

(** [image.rsplit(":", 1)] when it yields two parts, that is when the text
    holds a colon: the text before the last colon and the text after it. *)
Fixpoint rsplit_colon (s : text) : option (text * text) :=
  match s with
  | [] => None
  | c :: s' =>
      match rsplit_colon s' with
      | Some (a, b) => Some (c :: a, b)
      | None => if is_code 58 c then Some ([], s') else None
      end
  end.

(** The longest prefix of characters of a class, and the rest. *)
Fixpoint span (cls : ascii → bool) (s : text) : text * text :=
  match s with
  | c :: s' =>
      if cls c then let '(run, r) := span cls s' in (c :: run, r)
      else ([], s)
  | [] => ([], [])
  end.

(** The first character of a line after its leading white space. *)
Definition first_nonspace (line : text) : option ascii :=
  head (span is_space line).2.

(** [content.splitlines()] *)
Fixpoint splitlines (s : text) : list text :=
  match s with
  | [] => []
  | c :: s' =>
      if is_linebreak c then
        match s' with
        | d :: s'' =>
            if is_code 13 c && is_code 10 d then [] :: splitlines s''
            else [] :: splitlines s'
        | [] => [[]]
        end
      else
        match splitlines s' with
        | [] => [[c]]
        | l :: ls => (c :: l) :: ls
        end
  end.

(** ['\n'.join(lines)] *)
Fixpoint join_lines (ls : list text) : text :=
  match ls with
  | [] => []
  | [l] => l
  | l :: ls' => l ++ LF :: join_lines ls'
  end.

(** ** Regular expressions

    The patterns of the scripts are written with matching combinators in
    continuation-passing style, which follow the backtracking search of
    Python's [re]: a greedy repetition tries the longest run first and gives
    characters back while the rest of the pattern fails.  A combinator takes
    the matcher [k] of the rest of the pattern and the subject text. *)
Module Re.

(** [cls+ k] *)
Fixpoint plus {A} (cls : ascii → bool) (k : text → option A) (s : text)
  : option (text * A) :=
  match s with
  | c :: s' =>
      if cls c then
        match plus cls k s' with
        | Some (run, a) => Some (c :: run, a)
        | None => match k s' with Some a => Some ([c], a) | None => None end
        end
      else None
  | [] => None
  end.

(** [cls* k] *)
Fixpoint star {A} (cls : ascii → bool) (k : text → option A) (s : text)
  : option (text * A) :=
  match s with
  | c :: s' =>
      if cls c then
        match star cls k s' with
        | Some (run, a) => Some (c :: run, a)
        | None => match k s with Some a => Some ([], a) | None => None end
        end
      else match k s with Some a => Some ([], a) | None => None end
  | [] => match k s with Some a => Some ([], a) | None => None end
  end.

(** A literal text, then [k]. *)
Definition lit {A} (l : text) (k : text → option A) (s : text) : option A :=
  if startswith l s then k (drop (length l) s) else None.

(** One character of a class, then [k]. *)
Definition one {A} (cls : ascii → bool) (k : text → option A) (s : text)
  : option (ascii * A) :=
  match s with
  | c :: s' => if cls c then match k s' with Some a => Some (c, a) | None => None end
               else None
  | [] => None
  end.

(** [l? k]: the literal is tried first, then its absence. *)
Definition opt_lit {A} (l : text) (k : text → option A) (s : text) : option A :=
  match lit l k s with
  | Some a => Some a
  | None => k s
  end.

(** [$] without MULTILINE: the end of the text, or just before a line feed
    that ends the text. *)
Definition eol (s : text) : option unit :=
  match s with
  | [] => Some tt
  | [c] => if is_code 10 c then Some tt else None
  | _ => None
  end.

(** The end of a pattern used with [re.match]: whatever follows is left. *)
Definition accept (s : text) : option unit := Some tt.

(** The end of a pattern used by [re.sub]: the unmatched rest is returned. *)
Definition rest (s : text) : option text := Some s.

End Re.

(** ** The image reference, as the parsers split it *)
Module Image.

(** [extract_container_versions] and [add_version_comments_and_update_tags]:
<<
    if ':' in image: container, tag = image.rsplit(':', 1)
    else:            container = image; tag = 'latest'
>> *)
Definition split (image : text) : text * text :=
  if contains_char 58 image then
    match rsplit_colon image with
    | Some (container, tag) => (container, tag)
    | None => (image, str "latest")
    end
  else (image, str "latest").

(** [add_version_comments] and [update_versions] keep only the container
    when there is no colon. *)
Definition container (image : text) : text :=
  if contains_char 58 image then
    match rsplit_colon image with
    | Some (container, _) => container
    | None => image
    end
  else image.


End Image.

(** ** The interface of [packaging.version]

    [version.parse] either returns a [Version] or raises [InvalidVersion];
    versions are compared, hashed and tested for equality through their
    comparison key, so a [Version] is identified with that key. *)
Class PackagingVersion := {
  Version : Type;
  Version_eq_dec :: EqDecision Version;
  (** [version.parse(s)], [None] when it raises *)
  version_parse : text → option Version;
  (** [a < b] *)
  version_lt : Version → Version → bool;
}.

(** The comparison of versions is a strict total order. *)
Class PackagingVersionOrder `{PackagingVersion} : Prop := {
  version_lt_irrefl : ∀ a, version_lt a a = false;
  version_lt_trans : ∀ a b c,
    version_lt a b = true → version_lt b c = true → version_lt a c = true;
  version_lt_total : ∀ a b,
    version_lt a b = false → version_lt b a = false → a = b;
}.

(** ** Python dictionaries with observable order

    [d[k] = v] keeps the position (and the key object) of an existing equal
    key and replaces its value; a new key goes to the end. *)
Module Dict.
Section Dict.
Context {K V : Type} `{EqDecision K}.

Fixpoint set (k : K) (v : V) (d : list (K * V)) : list (K * V) :=
  match d with
  | [] => [(k, v)]
  | (k', v') :: d' =>
      if decide (k' = k) then (k', v) :: d' else (k', v') :: set k v d'
  end.

Fixpoint get (k : K) (d : list (K * V)) : option V :=
  match d with
  | [] => None
  | (k', v') :: d' => if decide (k' = k) then Some v' else get k d'
  end.

Definition keys (d : list (K * V)) : list K := map fst d.
End Dict.
End Dict.

(** [max(iterable)]: the first item is the candidate, a later item replaces
    it when it compares greater. *)
Definition py_max `{PackagingVersion} (keys : list Version) : option Version :=
  match keys with
  | [] => None
  | k :: ks => Some (fold_left (λ m x, if version_lt m x then x else m) ks k)
  end.

(** ** [check_docker_versions.py] *)
Module CheckDockerVersions.
Section WithVersions.
Context `{PackagingVersion}.

(** [parse_version_str]: one leading ["v"] is removed, then the text is
    parsed; any exception gives [None]. *)
Definition parse_version_str (version_str : text) : option Version :=
  let version_str :=
    if startswith (str "v") version_str then drop 1 version_str
    else version_str in
  version_parse version_str.


Inductive status :=
| UNKNOWN_using_latest_tag   (* "UNKNOWN (using latest tag)" *)
| UPDATE_AVAILABLE           (* "UPDATE AVAILABLE" *)
| UP_TO_DATE                 (* "UP TO DATE" *)
| NOT_IN_COMPOSE_FILE.       (* "NOT IN COMPOSE FILE" *)

Record result := {
  r_container : text;
  r_compose_version : text;
  r_latest_version : text;
  r_status : status;
}.

(** The status of a container that is in the compose file. *)
Definition classify (compose_version latest_version : text) : status :=
  if text_eqb compose_version (str "latest") then UNKNOWN_using_latest_tag
  else
    match parse_version_str compose_version,
          parse_version_str latest_version with
    | Some v_compose, Some v_latest =>
        if version_lt v_compose v_latest then UPDATE_AVAILABLE
        else UP_TO_DATE
    | _, _ => UP_TO_DATE
    end.

(** The body of the loop of [compare_versions]. *)
Definition compare_one (compose_versions : gmap text text)
    (container latest_version : text) : result :=
  match compose_versions !! container with
  | Some compose_version =>
      {| r_container := container;
         r_compose_version := compose_version;
         r_latest_version := latest_version;
         r_status := classify compose_version latest_version |}
  | None =>
      {| r_container := container;
         r_compose_version := str "NOT FOUND";
         r_latest_version := latest_version;
         r_status := NOT_IN_COMPOSE_FILE |}
  end.

(** [compare_versions]; [latest_versions] is iterated in insertion
    order. *)
Definition compare_versions (compose_versions : gmap text text)
    (latest_versions : list (text * text)) : list result :=
  map (λ cv, compare_one compose_versions cv.1 cv.2) latest_versions.

End WithVersions.
End CheckDockerVersions.

(** ** [version_number_collector.py] *)
Module VersionNumberCollector.
Section WithVersions.
Context `{PackagingVersion}.

(** The optional last group of the pattern below, a [-] or [+] and any
    run of [.], followed by [$]; the group is tried first. *)
Definition suffix_then_eol (s : text) : option unit :=
  match Re.one (λ c, is_code 45 c || is_code 43 c)
               (Re.star is_dot Re.eol) s with
  | Some _ => Some tt
  | None => Re.eol s
  end.

(** [is_semantic_version], as a truth value: the pattern is
    [^v?(\d+)\.(\d+)\.(\d+)] followed by the optional group and [$]. *)
Definition is_semantic_version (tag : text) : bool :=
  match
    Re.opt_lit (str "v")
      (Re.plus is_decimal (Re.lit (str ".")
        (Re.plus is_decimal (Re.lit (str ".")
          (Re.plus is_decimal suffix_then_eol))))) tag
  with
  | Some _ => true
  | None => false
  end.

(** The match of [parse_version]: an optional [v], then group 1,
    which is [\d+\.\d+\.\d+] and any run of [.]; the text of group 1. *)
Definition parse_version_group (tag : text) : option text :=
  match
    Re.opt_lit (str "v")
      (Re.plus is_decimal (Re.lit (str ".")
        (Re.plus is_decimal (Re.lit (str ".")
          (Re.plus is_decimal (Re.star is_dot Re.accept)))))) tag
  with
  | Some (major, (minor, (patch, (tail, _)))) =>
      Some (major ++ str "." ++ minor ++ str "." ++ patch ++ tail)
  | None => None
  end.

(** [parse_version] *)
Definition parse_version (tag : text) : option Version :=
  match parse_version_group tag with
  | Some group1 => version_parse group1
  | None => None
  end.

(** [re.match(r'^(\d+)\.(\d+)$', tag) or re.match(r'^(\d+)$', tag)], as a
    truth value. *)
Definition is_numeric_tag (tag : text) : bool :=
  match Re.plus is_decimal (Re.lit (str ".") (Re.plus is_decimal Re.eol)) tag with
  | Some _ => true
  | None =>
      match Re.plus is_decimal Re.eol tag with
      | Some _ => true
      | None => false
      end
  end.

(** The fallback pattern in the words of the specification,
    [^(\d+)(\.(\d+))?$], as a truth value; the optional group is tried
    first. *)
Definition bare_numeric (tag : text) : bool :=
  match
    Re.plus is_decimal
      (λ s, match Re.lit (str ".") (Re.plus is_decimal Re.eol) s with
            | Some _ => Some tt
            | None => Re.eol s
            end) tag
  with
  | Some _ => true
  | None => false
  end.

(** What a tag contributes to the dictionary of the first loop and of the
    fallback loop: the version it is stored under, if it is stored. *)
Definition semantic_candidate (tag : text) : option Version :=
  if is_semantic_version tag then parse_version tag else None.

Definition numeric_candidate (tag : text) : option Version :=
  if is_numeric_tag tag then version_parse tag else None.

(** A loop of [find_latest_version], for the contribution [f] of a tag. *)
Definition collect (f : text → option Version) (tags : list text)
    : list (Version * text) :=
  fold_left
    (λ versions tag,
       match f tag with
       | Some parsed => Dict.set parsed tag versions
       | None => versions
       end)
    tags [].

(** The first loop of [find_latest_version]; a [Version] object is always
    true, so [if parsed] tests that the parse succeeded. *)
Definition collect_semantic (tags : list text) : list (Version * text) :=
  fold_left
    (λ semantic_versions tag,
       if is_semantic_version tag then
         match parse_version tag with
         | Some parsed => Dict.set parsed tag semantic_versions
         | None => semantic_versions
         end
       else semantic_versions)
    tags [].

(** The fallback loop of [find_latest_version]. *)
Definition collect_numeric (tags : list text) : list (Version * text) :=
  fold_left
    (λ numeric_versions tag,
       if is_numeric_tag tag then
         match version_parse tag with
         | Some parsed_num => Dict.set parsed_num tag numeric_versions
         | None => numeric_versions
         end
       else numeric_versions)
    tags [].

(** [d[max(d.keys())]] *)
Definition latest_of (d : list (Version * text)) : option text :=
  match py_max (Dict.keys d) with
  | Some latest_parsed => Dict.get latest_parsed d
  | None => None
  end.

(** [find_latest_version] *)
Definition find_latest_version (tags : list text) : option text :=
  match tags with
  | [] => None
  | _ =>
      let semantic_versions := collect_semantic tags in
      match semantic_versions with
      | [] =>
          let numeric_versions := collect_numeric tags in
          match numeric_versions with
          | [] => None
          | _ => latest_of numeric_versions
          end
      | _ => latest_of semantic_versions
      end
  end.

End WithVersions.
End VersionNumberCollector.

(** ** [add_version_comments.py] *)
Module AddVersionComments.

Record change := {
  service : text;
  image : text;
  version : text;
}.

(** The variables the loop keeps between lines. *)
Record state := {
  current_service : option text;
  current_indent : option text;
  version_comment_added : bool;
}.

Definition initial : state :=
  {| current_service := None; current_indent := None;
     version_comment_added := false |}.

(** [service_pattern = ^(\s+)(\w+):], groups 1 and 2. *)
Definition service_pattern (line : text) : option (text * text) :=
  match Re.plus is_space (Re.plus is_word (Re.lit (str ":") Re.accept)) line with
  | Some (g1, (g2, _)) => Some (g1, g2)
  | None => None
  end.

(** [image_pattern = ^(\s+)image:\s+(.+)$], groups 1 and 2. *)
Definition image_pattern (line : text) : option (text * text) :=
  match
    Re.plus is_space (Re.lit (str "image:")
      (Re.plus is_space (Re.plus is_dot Re.eol))) line
  with
  | Some (g1, (_, (g2, _))) => Some (g1, g2)
  | None => None
  end.

(** [version in ["unknown", "latest", None]] *)
Definition unusable (version : option text) : bool :=
  match version with
  | None => true
  | Some v => text_eqb v (str "unknown") || text_eqb v (str "latest")
  end.

(** The truth value of [current_service]. *)
Definition truthy (o : option text) : bool :=
  match o with
  | Some (_ :: _) => true
  | _ => false
  end.

(** One iteration of the loop: the new state, the lines appended to
    [new_lines] and the records appended to [changes]. *)
Definition step (container_versions : gmap text (option text))
    (st : state) (line : text) : state * list text * list change :=
  let st :=
    match service_pattern line with
    | Some (g1, g2) =>
        {| current_indent := Some g1; current_service := Some g2;
           version_comment_added := false |}
    | None => st
    end in
  match image_pattern line with
  | Some (indent, image) =>
      if truthy (current_service st) then
        let container := Image.container image in
        (* container_versions.get(container, "unknown") *)
        let version :=
          default (Some (str "unknown")) (container_versions !! container) in
        match version with
        | Some v =>
            if unusable version then (st, [line], [])
            else
              let version_comment := indent ++ str "# Version: " ++ v ++ [LF] in
              ({| current_indent := current_indent st;
                  current_service := current_service st;
                  version_comment_added := true |},
               [version_comment; line],
               [{| service := default [] (current_service st);
                   image := image; version := v |}])
        | None => (st, [line], [])
        end
      else (st, [line], [])
  | None => (st, [line], [])
  end.

Fixpoint run (container_versions : gmap text (option text))
    (st : state) (lines : list text) : list text * list change :=
  match lines with
  | [] => ([], [])
  | line :: lines' =>
      let '(st', out, chg) := step container_versions st line in
      let '(new_lines, changes) := run container_versions st' lines' in
      (out ++ new_lines, chg ++ changes)
  end.

(** [add_version_comments(lines, version_data)], with
    [container_versions = version_data.get("container_versions", {})]. *)
Definition add_version_comments (lines : list text)
    (container_versions : gmap text (option text))
    : list text * list change :=
  run container_versions initial lines.


End AddVersionComments.

(** ** [version_docker_compose.py] *)
Module VersionDockerCompose.

(** A change record; [change_type] is the constructor. *)
Inductive change :=
| tag_updated (service old_image new_image version : text)
| comment_added (service image version : text).

(** [service_pattern = ^(\s+)(\w+):], group 2. *)
Definition service_pattern (line : text) : option text :=
  match Re.plus is_space (Re.plus is_word (Re.lit (str ":") Re.accept)) line with
  | Some (_, (g2, _)) => Some g2
  | None => None
  end.

(** [image_pattern = ^(\s+image:\s+)(.+)$], groups 1 and 2. *)
Definition image_pattern (line : text) : option (text * text) :=
  match
    Re.plus is_space (Re.lit (str "image:")
      (Re.plus is_space (Re.plus is_dot Re.eol))) line
  with
  | Some (ws1, (ws2, (g2, _))) => Some (ws1 ++ str "image:" ++ ws2, g2)
  | None => None
  end.

(** [version_comment_pattern = ^\s+# Version:], as a truth value. *)
Definition version_comment_pattern (line : text) : bool :=
  match Re.plus is_space (Re.lit (str "# Version:") Re.accept) line with
  | Some _ => true
  | None => false
  end.

(** [container in container_versions and
     container_versions[container] not in ["unknown", "UNKNOWN", None]]:
    the version when the test holds. *)
Definition usable_version (container_versions : gmap text (option text))
    (container : text) : option text :=
  match container_versions !! container with
  | Some (Some v) =>
      if text_eqb v (str "unknown") || text_eqb v (str "UNKNOWN") then None
      else Some v
  | _ => None
  end.

Definition truthy (o : option text) : bool :=
  match o with
  | Some (_ :: _) => true
  | _ => false
  end.

(** One iteration of the loop: the new [current_service], the lines
    appended to [new_lines] and the records appended to [changes]. *)
Definition step (update_tags skip_existing : bool)
    (container_versions : gmap text (option text))
    (current_service : option text) (line : text)
    : option text * list text * list change :=
  let current_service :=
    match service_pattern line with
    | Some g2 => Some g2
    | None => current_service
    end in
  if version_comment_pattern line && skip_existing then
    (current_service, [], [])
  else
    match image_pattern line with
    | Some (indent_plus_image, image) =>
        if truthy current_service then
          let '(container, tag) := Image.split image in
          match usable_version container_versions container with
          | Some version =>
              let indent :=
                repeat " "%char (length indent_plus_image - length (str "image: ")) in
              let version_comment := indent ++ str "# Version: " ++ version in
              let service := default [] current_service in
              if update_tags
                 && (text_eqb tag (str "latest") || text_eqb container image)
              then
                let new_image := container ++ str ":" ++ version in
                let new_line := indent_plus_image ++ new_image in
                (current_service, [version_comment; new_line],
                 [tag_updated service image new_image version])
              else
                (current_service, [version_comment; line],
                 [comment_added service image version])
          | None => (current_service, [line], [])
          end
        else (current_service, [line], [])
    | None => (current_service, [line], [])
    end.

Fixpoint run (update_tags skip_existing : bool)
    (container_versions : gmap text (option text))
    (current_service : option text) (lines : list text)
    : list text * list change :=
  match lines with
  | [] => ([], [])
  | line :: lines' =>
      let '(cs', out, chg) :=
        step update_tags skip_existing container_versions current_service line in
      let '(new_lines, changes) :=
        run update_tags skip_existing container_versions cs' lines' in
      (out ++ new_lines, chg ++ changes)
  end.

(** The loop over [content.splitlines()]. *)
Definition rewrite_lines (update_tags skip_existing : bool)
    (container_versions : gmap text (option text)) (lines : list text)
    : list text * list change :=
  run update_tags skip_existing container_versions None lines.

(** [add_version_comments_and_update_tags(content, yaml_data, version_data,
    update_tags, skip_existing)]; the function does not read [yaml_data],
    which is left out. *)
Definition add_version_comments_and_update_tags (content : text)
    (container_versions : gmap text (option text))
    (update_tags skip_existing : bool) : text * list change :=
  let '(new_lines, changes) :=
    rewrite_lines update_tags skip_existing container_versions
      (splitlines content) in
  (join_lines new_lines, changes).


(** The state after some lines: the last key that the service pattern
    matched. *)
Definition state_after (current_service : option text) (lines : list text)
    : option text :=
  fold_left
    (λ cs line, match service_pattern line with Some name => Some name | None => cs end)
    lines current_service.

Definition is_tag_updated (c : change) : bool :=
  match c with
  | tag_updated _ _ _ _ => true
  | comment_added _ _ _ => false
  end.

Definition old_image_of (c : change) : text :=
  match c with
  | tag_updated _ old_image _ _ => old_image
  | comment_added _ image _ => image
  end.

End VersionDockerCompose.

(** ** [update_compose_versions.py] *)
Module UpdateComposeVersions.

Record change := {
  service : text;
  old_image : text;
  new_image : text;
}.

(** [container in container_versions and
     container_versions[container] not in ["latest", "UNKNOWN", None]]:
    the version when the test holds. *)
Definition usable_version (container_versions : gmap text (option text))
    (container : text) : option text :=
  match container_versions !! container with
  | Some (Some v) =>
      if text_eqb v (str "latest") || text_eqb v (str "UNKNOWN") then None
      else Some v
  | _ => None
  end.

(** [tag in ["alpine", "latest-full", "latest-cuda"] and
     not tag.startswith("v")] *)
Definition unhelpful (tag : text) : bool :=
  (text_eqb tag (str "alpine") || text_eqb tag (str "latest-full")
   || text_eqb tag (str "latest-cuda"))
  && negb (startswith (str "v") tag).

(** [any(char.isdigit() for char in tag) and tag not in ["latest"]] *)
Definition specific_enough (tag : text) : bool :=
  existsb isdigit tag && negb (text_eqb tag (str "latest")).

(** The last group of the search pattern, [(\s|$)]: its text and what
    follows the match. *)
Definition space_or_eol (s : text) : option (text * text) :=
  match Re.one is_space Re.rest s with
  | Some (c, r) => Some ([c], r)
  | None =>
      match Re.eol s with
      | Some _ => Some ([], s)
      | None => None
      end
  end.

(** One attempt, at the start of [s], to match the pattern
    [(\s+image:\s+)IMAGE(\s|$)], where [IMAGE] is [re.escape(image)] and so
    matches the text [image] itself: groups 1 and 2 and what follows the
    match. *)
Definition match_image_here (image : text) (s : text)
    : option (text * text * text) :=
  match
    Re.plus is_space (Re.lit (str "image:")
      (Re.plus is_space (Re.lit image space_or_eol))) s
  with
  | Some (ws1, (ws2, (g2, r))) => Some (ws1 ++ str "image:" ++ ws2, g2, r)
  | None => None
  end.

(** The scan of [re.sub]: the leftmost match is replaced and the scan goes
    on after it.  [m] gives, for a match at the start of its argument, the
    replacement and the number of characters matched, which the scan then
    skips; the pattern here never matches the empty text. *)
Fixpoint sub_scan (m : text → option (text * nat)) (skip : nat) (s : text)
  : text :=
  match skip with
  | S n =>
      match s with
      | [] => []
      | _ :: s' => sub_scan m n s'
      end
  | 0 =>
      match m s with
      | Some (repl, len) =>
          repl ++ match s with
                  | [] => []
                  | _ :: s' => sub_scan m (pred len) s'
                  end
      | None =>
          match s with
          | [] => []
          | c :: s' => c :: sub_scan m 0 s'
          end
      end
  end.

(** The replacement template is [\1], the new image and [\2] in one string.
    It stands for group 1, the literal new image and group 2 only if the
    new image holds no backslash and does not start with a decimal digit
    (which would be read with [\1] as another group number or an octal
    escape). *)
Definition template_is_literal (new_image : text) : bool :=
  negb (contains_char 92 new_image)
  && match new_image with
     | c :: _ => negb (is_decimal c)
     | [] => true
     end.

(** [re.sub(pattern, template, yaml_content)] for the pattern and template
    above; [None] when the template is not literal, where [re.sub] raises
    [re.error] or writes an escape's value instead of the image. *)
Definition sub_image (image new_image : text) (yaml_content : text)
    : option text :=
  if template_is_literal new_image then
    Some (sub_scan
            (λ s, match match_image_here image s with
                  | Some (g1, g2, r) =>
                      Some (g1 ++ new_image ++ g2, length s - length r)
                  | None => None
                  end)
            0 yaml_content)
  else None.

(** The body of the loop over [services.items()] for a service with the
    value [image] of its [image] key. *)
Definition update_service (container_versions : gmap text (option text))
    (service_name image : text) (acc : text * list change)
    : option (text * list change) :=
  let '(yaml_content, changes) := acc in
  if contains_char 58 image then
    match rsplit_colon image with
    | Some (container, tag) =>
        match usable_version container_versions container with
        | Some new_version =>
            if unhelpful tag then Some acc
            else if specific_enough tag then Some acc
            else
              let new_image := container ++ str ":" ++ new_version in
              match sub_image image new_image yaml_content with
              | Some yaml_content' =>
                  Some (yaml_content',
                        changes ++ [{| service := service_name;
                                       old_image := image;
                                       new_image := new_image |}])
              | None => None
              end
        | None => Some acc
        end
    | None => Some acc
    end
  else
    let container := image in
    match usable_version container_versions container with
    | Some new_version =>
        let new_image := container ++ str ":" ++ new_version in
        match sub_image container new_image yaml_content with
        | Some yaml_content' =>
            Some (yaml_content',
                  changes ++ [{| service := service_name;
                                 old_image := container;
                                 new_image := new_image |}])
        | None => None
        end
    | None => Some acc
    end.

Fixpoint update_services (container_versions : gmap text (option text))
    (services : list (text * option text)) (acc : text * list change)
    : option (text * list change) :=
  match services with
  | [] => Some acc
  | (service_name, Some image) :: services' =>
      match update_service container_versions service_name image acc with
      | Some acc' => update_services container_versions services' acc'
      | None => None
      end
  | (_, None) :: services' =>
      update_services container_versions services' acc
  end.

(** [update_versions(yaml_content, yaml_data, version_data)]: [services] is
    [yaml_data.get("services", {})], the services in document order, each
    with the value of its [image] key when it has one; [None] is an
    exception raised by [re.sub]. *)
Definition update_versions (yaml_content : text)
    (services : list (text * option text))
    (container_versions : gmap text (option text))
    : option (text * list change) :=
  update_services container_versions services (yaml_content, []).

(** What may follow a replaced image: white space or the end of the text. *)
Definition boundary (s : text) : Prop :=
  match s with
  | [] => True
  | c :: _ => is_space c = true
  end.

(** The texts obtained from a text by replacing occurrences of [old] that
    follow [image:] and white space, and are themselves followed by white
    space or the end of the text, by [new]; and nothing else. *)
Inductive patched (old new : text) : text → text → Prop :=
| patched_nil : patched old new [] []
| patched_keep c s t :
    patched old new s t → patched old new (c :: s) (c :: t)
| patched_replace ws s t :
    ws ≠ [] → forallb is_space ws = true → boundary s →
    patched old new s t →
    patched old new (str "image:" ++ ws ++ old ++ s)
                    (str "image:" ++ ws ++ new ++ t).




(** One such replacement per change record, in the order of the records. *)
Inductive patched_by : list change → text → text → Prop :=
| patched_by_nil s : patched_by [] s s
| patched_by_cons r rs s m t :
    patched (old_image r) (new_image r) s m →
    patched_by rs m t →
    patched_by (r :: rs) s t.

End UpdateComposeVersions.

(** ** An instance of the version interface

    The PEP 440 versions that consist of a release segment only: digits
    separated by dots, after an optional [v], with white space around
    allowed.  Their comparison key is the tuple of release numbers without
    its trailing zeros, compared as a tuple.  This instance rejects every
    other text; it serves on texts of that form and on texts that
    [packaging] rejects too. *)
Module Release.

Definition digit_value (c : ascii) : N := N.of_nat (code c - 48).

(** [int(digits)] *)
Definition int_of (digits : text) : N :=
  fold_left (λ n c, (10 * n + digit_value c)%N) digits 0%N.

(** The release segment [[0-9]+(\.[0-9]+)*] at the start of [s], longest
    first, and the rest. *)
Fixpoint segment (fuel : nat) (s : text) : option (list N * text) :=
  match fuel with
  | 0 => None
  | S fuel' =>
      match span is_decimal s with
      | ([], _) => None
      | (ds, c :: r) =>
          if is_code 46 c then
            match segment fuel' r with
            | Some (ns, r') => Some (int_of ds :: ns, r')
            | None => Some ([int_of ds], c :: r)
            end
          else Some ([int_of ds], c :: r)
      | (ds, []) => Some ([int_of ds], [])
      end
  end.

(** The tuple without its trailing zeros. *)
Fixpoint strip_zeros (ns : list N) : list N :=
  match ns with
  | [] => []
  | n :: ns' =>
      match strip_zeros ns' with
      | [] => if (n =? 0)%N then [] else [n]
      | ns'' => n :: ns''
      end
  end.

Definition parse (s : text) : option (list N) :=
  let s := (span is_space s).2 in
  let s := match s with
           | c :: s' => if is_code 118 c || is_code 86 c then s' else s
           | [] => s
           end in
  match segment (S (length s)) s with
  | Some (ns, r) => if forallb is_space r then Some (strip_zeros ns) else None
  | None => None
  end.

(** Tuple comparison. *)
Fixpoint lt (a b : list N) : bool :=
  match a, b with
  | [], [] => false
  | [], _ :: _ => true
  | _ :: _, [] => false
  | x :: a', y :: b' => (x <? y)%N || ((x =? y)%N && lt a' b')
  end.

Definition packaging : PackagingVersion := {|
  Version := list N;
  version_parse := parse;
  version_lt := lt;
|}.

End Release.

(** ** [check_docker_versions.py]: the tag picked from a registry answer *)
Module GetLatestVersion.

(** Splitting at the first occurrence of a character: the text before it, and
    the text after it when the character occurs. *)
Fixpoint split_first (n : nat) (s : text) : text * option text :=
  match s with
  | [] => ([], None)
  | c :: s' =>
      if is_code n c then ([], Some s')
      else let '(a, b) := split_first n s' in (c :: a, b)
  end.

(** The test of the loop of [get_latest_version],
<<
    (name.startswith('v') and '.' in name) or (name[0].isdigit() and '.' in name)
>>
    [None] when [name[0]] raises [IndexError], which it does for the empty
    name. *)
Definition version_like (name : text) : option bool :=
  if startswith (str "v") name && contains_char 46 name then Some true
  else
    match name with
    | [] => None
    | c :: _ => Some (isdigit c && contains_char 46 name)
    end.

(** How the loop over the results ends. *)
Inductive scan :=
| found (name : text)     (* [return name] *)
| raised                  (* an exception left the loop *)
| exhausted.              (* the loop ran to its end *)

Fixpoint scan_results (names : list text) : scan :=
  match names with
  | [] => exhausted
  | name :: names' =>
      match version_like name with
      | Some true => found name
      | Some false => scan_results names'
      | None => raised
      end
  end.

(** [get_latest_version], after the request: [response] is [None] when the
    request or the decoding of its answer raised, and otherwise holds the
    [name] of every entry of [data.get('results', [])], in order. *)
Definition get_latest_version (response : option (list text)) : text :=
  match response with
  | None => str "error"
  | Some names =>
      match scan_results names with
      | found name => name
      | raised => str "error"
      | exhausted =>
          match names with
          | name :: _ => name
          | [] => str "unknown"
          end
      end
  end.

End GetLatestVersion.

(** ** [version_number_collector.py]: the loop of [main] *)
Module CollectorMain.

(** The registry whose tag list is asked for, with the repository name. *)
Inductive registry :=
| docker_hub (repo_name : text)
| ghcr (repo_name : text)
| quay (repo_name : text)
| skipped.                 (* MCR, or no registry could be determined *)

(** [image_ref.split(':', 1)[0]] when there is a colon, else [image_ref]. *)
Definition image_name_of (image_ref : text) : text :=
  (GetLatestVersion.split_first 58 image_ref).1.

(** [image_name.split('/', 1)[1]], for a name that holds a slash. *)
Definition after_slash (image_name : text) : text :=
  default [] (GetLatestVersion.split_first 47 image_name).2.

(** The chain of tests on [image_name]. *)
Definition route (image_name : text) : registry :=
  if negb (contains_char 47 image_name) then
    docker_hub (str "library/" ++ image_name)
  else if startswith (str "ghcr.io/") image_name then
    ghcr (after_slash image_name)
  else if startswith (str "quay.io/") image_name then
    quay (after_slash image_name)
  else if startswith (str "mcr.microsoft.com/") image_name then skipped
  else if negb (contains_char 46 (GetLatestVersion.split_first 47 image_name).1)
  then docker_hub image_name
  else skipped.

Section WithVersions.
Context `{PackagingVersion}.

(** The tag lists the registries answer with: [None] where the function that
    asks returns [None]. *)
Variable fetch : registry → option (list text).

(** One turn of the loop: the new [results] and [failed_images]. *)
Definition visit (acc : list (text * text) * list text) (image_ref : text)
    : list (text * text) * list text :=
  let '(results, failed_images) := acc in
  match route (image_name_of image_ref) with
  | skipped => (results, failed_images ++ [image_ref])
  | r =>
      match fetch r with
      | Some tags =>
          match VersionNumberCollector.find_latest_version tags with
          | Some (c :: v) =>
              (* a tag that is not empty is true *)
              (Dict.set image_ref (c :: v) results, failed_images)
          | _ => (results, failed_images ++ [image_ref])
          end
      | None => (results, failed_images ++ [image_ref])
      end
  end.

(** The loop of [main] over the image references: [successful_images] and
    [failed_images]. *)
Definition scan_images (images : list text) : list (text * text) * list text :=
  fold_left visit images ([], []).

End WithVersions.
End CollectorMain.

(** ** The fields of the change records of [version_docker_compose.py] *)
Module Records.

(** [change["service"]] *)
Definition service_of (c : VersionDockerCompose.change) : text :=
  match c with
  | VersionDockerCompose.tag_updated service _ _ _ => service
  | VersionDockerCompose.comment_added service _ _ => service
  end.

(** [change["version"]] *)
Definition version_of (c : VersionDockerCompose.change) : text :=
  match c with
  | VersionDockerCompose.tag_updated _ _ _ version => version
  | VersionDockerCompose.comment_added _ _ version => version
  end.

(** [change["new_image"]], which only a [tag_updated] record has. *)
Definition new_image_of (c : VersionDockerCompose.change) : option text :=
  match c with
  | VersionDockerCompose.tag_updated _ _ new_image _ => Some new_image
  | VersionDockerCompose.comment_added _ _ _ => None
  end.

End Records.

(** ** Inputs of the examples *)
Module Examples.

(** The double quote. *)
Definition DQ : ascii := ascii_of_nat 34.

(** A file as [readlines] returns it: every row with its line feed. *)
Definition readlines (rows : list text) : list text :=
  map (λ row, row ++ [LF]) rows.

(** A file as [read] returns it. *)
Definition read (rows : list text) : text := concat (readlines rows).

(** A compose file with one service, [web], whose image is [nginx]. *)
Definition nginx_rows : list text :=
  [str "services:"; str "  web:"; str "    image: nginx"].

Definition nginx_lines : list text := readlines nginx_rows.

(** The version found for [nginx]. *)
Definition nginx_version (version : string) : gmap text (option text) :=
  {[ str "nginx" := Some (str version) ]}.

(** A compose file with one service, [cache], whose image is
    [qdrant/qdrant:latest], written plainly and written in double quotes;
    [yaml.safe_load] gives the same data for both. *)
Definition qdrant_plain_rows : list text :=
  [str "services:"; str "  cache:"; str "    image: qdrant/qdrant:latest"].

Definition qdrant_quoted_rows : list text :=
  [str "services:"; str "  cache:";
   str "    image: " ++ [DQ] ++ str "qdrant/qdrant:latest" ++ [DQ]].

Definition qdrant_services : list (text * option text) :=
  [(str "cache", Some (str "qdrant/qdrant:latest"))].

Definition qdrant_versions : gmap text (option text) :=
  {[ str "qdrant/qdrant" := Some (str "v1.9.0") ]}.








End Examples.

(** * Properties *)

(** ** Characters and texts *)

Ltac all_chars c :=
  destruct c as [[] [] [] [] [] [] [] []]; vm_compute; try reflexivity;
  try discriminate; try tauto.

Lemma space_not_word c : is_space c = true → is_word c = false.
Proof. all_chars c. Qed.

Lemma space_not_hash c : is_space c = true → is_code 35 c = false.
Proof. all_chars c. Qed.


Lemma is_code_eq n c : n < 256 → is_code n c = true → c = ascii_of_nat n.
Proof.
  unfold is_code, code. intros Hn Hc. apply Nat.eqb_eq in Hc. subst n.
  symmetry. apply ascii_nat_embedding.
Qed.

Lemma text_eqb_eq a b : text_eqb a b = true ↔ a = b.
Proof. unfold text_eqb. apply bool_decide_eq_true. Qed.

Lemma text_eqb_neq a b : text_eqb a b = false ↔ a ≠ b.
Proof. unfold text_eqb. apply bool_decide_eq_false. Qed.

Lemma startswith_app p s : startswith p s = true → s = p ++ drop (length p) s.
Proof.
  revert s. induction p as [|a p IH]; intros [|b s]; simpl; try done.
  intros [Hab Hs]%andb_true_iff. apply bool_decide_eq_true in Hab. subst b.
  f_equal. by apply IH.
Qed.

Lemma startswith_refl_app p s : startswith p (p ++ s) = true.
Proof.
  induction p as [|a p IH]; simpl; [done|].
  rewrite bool_decide_eq_true_2 by done. exact IH.
Qed.

(** ** The last colon *)

Lemma rsplit_colon_some s a b :
  rsplit_colon s = Some (a, b) →
  s = a ++ str ":" ++ b ∧ contains_char 58 b = false.
Proof.
  revert a b. induction s as [|c s IH]; intros a b; simpl; [done|].
  destruct (rsplit_colon s) as [[a' b']|] eqn:E.
  - intros [= <- <-]. destruct (IH _ _ eq_refl) as [-> Hb]. done.
  - destruct (is_code 58 c) eqn:Hc; [|done].
    intros [= <- <-]. apply is_code_eq in Hc; [|lia]. subst c. split; [done|].
    clear IH. induction s as [|d s IH]; simpl in *; [done|].
    destruct (rsplit_colon s) as [[a' b']|]; [done|].
    destruct (is_code 58 d); [done|]. simpl. by apply IH.
Qed.

Lemma rsplit_colon_none s :
  rsplit_colon s = None ↔ contains_char 58 s = false.
Proof.
  induction s as [|c s IH]; simpl; [done|].
  destruct (rsplit_colon s) as [[a b]|].
  - split; [done|]. intros [_ Hs]%orb_false_iff. by apply IH in Hs.
  - destruct (is_code 58 c); simpl; [done|]. split; [|done].
    intros _. by apply IH.
Qed.

Lemma image_split_cases (image : text) :
  (∃ repository tag,
     image = repository ++ str ":" ++ tag ∧ contains_char 58 tag = false ∧
     Image.split image = (repository, tag) ∧
     Image.container image = repository)
  ∨ (contains_char 58 image = false ∧
     Image.split image = (image, str "latest") ∧
     Image.container image = image).
Proof.
  unfold Image.split, Image.container.
  destruct (contains_char 58 image) eqn:Hc; [left|right; done].
  destruct (rsplit_colon image) as [[repository tag]|] eqn:E.
  - exists repository, tag. by destruct (rsplit_colon_some _ _ _ E) as [-> ->].
  - apply rsplit_colon_none in E. congruence.
Qed.


(** ** The release instance is a strict total order *)

Lemma release_lt_irrefl a : Release.lt a a = false.
Proof.
  induction a as [|x a IH]; simpl; [done|].
  rewrite N.ltb_irrefl, N.eqb_refl. exact IH.
Qed.

Lemma release_lt_trans a b c :
  Release.lt a b = true → Release.lt b c = true → Release.lt a c = true.
Proof.
  revert b c. induction a as [|x a IH]; intros [|y b] [|z c]; simpl; try done.
  intros Hab Hbc.
  apply orb_true_iff in Hab as [Hxy|[Hxy Hab]%andb_true_iff];
  apply orb_true_iff in Hbc as [Hyz|[Hyz Hbc]%andb_true_iff];
  rewrite ?N.ltb_lt, ?N.eqb_eq in *; apply orb_true_iff.
  - left. apply N.ltb_lt. lia.
  - left. apply N.ltb_lt. lia.
  - left. apply N.ltb_lt. lia.
  - right. apply andb_true_iff. split; [apply N.eqb_eq; lia|]. by eapply IH.
Qed.

Lemma release_lt_total a b :
  Release.lt a b = false → Release.lt b a = false → a = b.
Proof.
  revert b. induction a as [|x a IH]; intros [|y b]; simpl; try done.
  intros [Hxy Hab]%orb_false_iff [Hyx Hba]%orb_false_iff.
  apply N.ltb_ge in Hxy, Hyx. assert (x = y) as -> by lia.
  rewrite N.eqb_refl in Hab, Hba. simpl in *. f_equal. by apply IH.
Qed.

Lemma release_order : @PackagingVersionOrder Release.packaging.
Proof.
  split.
  - exact release_lt_irrefl.
  - exact release_lt_trans.
  - exact release_lt_total.
Qed.

(** ** Status classification ([check_docker_versions.py]) *)

Section Classification.
Context `{PackagingVersion}.
Import CheckDockerVersions.

Lemma compare_one_status compose_versions container compose_version latest :
  compose_versions !! container = Some compose_version →
  r_status (compare_one compose_versions container latest)
  = classify compose_version latest.
Proof. intros Hc. unfold compare_one. by rewrite Hc. Qed.

Lemma compare_one_absent compose_versions container latest :
  compose_versions !! container = None →
  r_status (compare_one compose_versions container latest)
  = NOT_IN_COMPOSE_FILE.
Proof. intros Hc. unfold compare_one. by rewrite Hc. Qed.

(** C2, as the code has it.  The status is [UPDATE AVAILABLE] exactly when
    the compose version is not the text [latest], both texts parse and the
    compose version is strictly less than the latest one; the compose
    version [latest] gives [UNKNOWN (using latest tag)]; any other compose
    version gives [UP TO DATE] when one of the two texts fails to parse. *)
Theorem classify_update_available compose_version latest_version :
  (classify compose_version latest_version = UPDATE_AVAILABLE ↔
     compose_version ≠ str "latest" ∧
     ∃ v_compose v_latest,
       parse_version_str compose_version = Some v_compose ∧
       parse_version_str latest_version = Some v_latest ∧
       version_lt v_compose v_latest = true)
  ∧ (compose_version = str "latest" →
     classify compose_version latest_version = UNKNOWN_using_latest_tag)
  ∧ (compose_version ≠ str "latest" →
     parse_version_str compose_version = None
     ∨ parse_version_str latest_version = None →
     classify compose_version latest_version = UP_TO_DATE).
Proof.
  unfold classify. repeat split.
  - destruct (text_eqb _ _) eqn:E; [done|]. by apply text_eqb_neq in E.
  - destruct (text_eqb _ _) eqn:E; [done|].
    destruct (parse_version_str compose_version) as [vc|]; [|done].
    destruct (parse_version_str latest_version) as [vl|]; [|done].
    destruct (version_lt vc vl) eqn:Hlt; [|done]. by exists vc, vl.
  - intros [Hne (vc & vl & -> & -> & ->)].
    apply text_eqb_neq in Hne. by rewrite Hne.
  - intros ->. by rewrite (proj2 (text_eqb_eq _ _)).
  - intros Hne%text_eqb_neq [->| ->]; rewrite Hne; [done|].
    by destruct (parse_version_str compose_version).
Qed.

End Classification.

Section ClassificationExamples.
#[local] Existing Instance Release.packaging.

(** C2, witness: the compose version [alpine] against the latest version
    [1.3.0]. *)
Lemma classify_update_available_witness :
  CheckDockerVersions.classify (str "alpine") (str "1.3.0")
  = CheckDockerVersions.UP_TO_DATE.
Proof.
  apply (proj2 (proj2 (classify_update_available (str "alpine") (str "1.3.0")))).
  - vm_compute. discriminate.
  - left. vm_compute. reflexivity.
Defined.

(** C2, counterexample: the compose version [alpine] does not parse, and the
    status reported against the latest version [1.3.0] is [UP TO DATE], not
    an unknown one. *)
Lemma classify_unparsed_is_up_to_date :
  CheckDockerVersions.parse_version_str (str "alpine") = None
  ∧ CheckDockerVersions.classify (str "alpine") (str "1.3.0")
    = CheckDockerVersions.UP_TO_DATE
  ∧ CheckDockerVersions.classify (str "alpine") (str "1.3.0")
    ≠ CheckDockerVersions.UNKNOWN_using_latest_tag.
Proof. vm_compute. repeat split; discriminate. Qed.

(** The statuses of the scenarios of the specification. *)
Example classify_scenarios :
  CheckDockerVersions.classify (str "1.2.0") (str "1.3.0")
  = CheckDockerVersions.UPDATE_AVAILABLE
  ∧ CheckDockerVersions.classify (str "latest") (str "1.3.0")
    = CheckDockerVersions.UNKNOWN_using_latest_tag
  ∧ CheckDockerVersions.r_status
      (CheckDockerVersions.compare_one ∅ (str "qdrant/qdrant") (str "1.3.0"))
    = CheckDockerVersions.NOT_IN_COMPOSE_FILE.
Proof. vm_compute. done. Qed.

End ClassificationExamples.

(** ** Dictionaries and the maximum *)

Section DictFacts.
Context {K V : Type} `{EqDecision K}.
Implicit Types (d : list (K * V)) (k : K) (v : V).

Lemma dict_get_set k k' v d :
  Dict.get k (Dict.set k' v d) = if decide (k' = k) then Some v else Dict.get k d.
Proof.
  induction d as [|[k0 v0] d IH]; simpl.
  - done.
  - destruct (decide (k0 = k')) as [-> |Hne]; simpl.
    + by destruct (decide (k' = k)).
    + rewrite IH. destruct (decide (k0 = k)) as [-> |]; [|done].
      by destruct (decide (k' = k)).
Qed.

Lemma dict_keys_set k k' v d :
  k ∈ Dict.keys (Dict.set k' v d) ↔ k = k' ∨ k ∈ Dict.keys d.
Proof.
  unfold Dict.keys. induction d as [|[k0 v0] d IH]; simpl.
  - rewrite list_elem_of_singleton. split; [auto|]. intros [?|?%elem_of_nil]; done.
  - destruct (decide (k0 = k')) as [-> |Hne]; simpl.
    + rewrite !elem_of_cons. tauto.
    + rewrite !elem_of_cons, IH. tauto.
Qed.

Lemma dict_get_is_some k d : is_Some (Dict.get k d) ↔ k ∈ Dict.keys d.
Proof.
  unfold Dict.keys. induction d as [|[k0 v0] d IH]; simpl.
  - rewrite elem_of_nil. split; [by intros [? ?]|done].
  - rewrite elem_of_cons. destruct (decide (k0 = k)) as [-> |Hne].
    + split; [auto|by eexists].
    + rewrite IH. split; [auto|]. by intros [?|?].
Qed.

End DictFacts.

Section Selector.
Context `{PackagingVersion} `{!PackagingVersionOrder}.
Import VersionNumberCollector.

Lemma fold_max_spec ks k :
  fold_left (λ m x, if version_lt m x then x else m) ks k ∈ k :: ks
  ∧ ∀ x, x ∈ k :: ks →
      version_lt (fold_left (λ m x, if version_lt m x then x else m) ks k) x
      = false.
Proof.
  revert k. induction ks as [|y ks IH]; intros k; simpl.
  - split; [by left|]. intros x ->%list_elem_of_singleton. apply version_lt_irrefl.
  - destruct (version_lt k y) eqn:Hky.
    + destruct (IH y) as [Hin Hmax]. revert Hin Hmax.
      generalize (fold_left (λ m x, if version_lt m x then x else m) ks y).
      intros m Hin Hmax. split; [by right|].
      intros x [Hx|Hx]%elem_of_cons; [subst x|by apply Hmax].
      destruct (version_lt m k) eqn:Hmk; [|done].
      specialize (Hmax y (list_elem_of_here _ _)).
      by rewrite (version_lt_trans _ _ _ Hmk Hky) in Hmax.
    + destruct (IH k) as [Hin Hmax]. revert Hin Hmax.
      generalize (fold_left (λ m x, if version_lt m x then x else m) ks k).
      intros m Hin Hmax. split.
      * apply elem_of_cons in Hin as [Hin|Hin].
        -- rewrite Hin. by left.
        -- by do 2 right.
      * intros x [Hx|[Hx|Hx]%elem_of_cons]%elem_of_cons.
        -- subst x. apply Hmax. by left.
        -- subst x. destruct (version_lt m y) eqn:Hmy; [|done].
           specialize (Hmax k (list_elem_of_here _ _)).
           destruct (version_lt k m) eqn:Hkm.
           ++ by rewrite (version_lt_trans _ _ _ Hkm Hmy) in Hky.
           ++ rewrite <- (version_lt_total _ _ Hkm Hmax) in Hmy. congruence.
        -- apply Hmax. by right.
Qed.

Lemma py_max_spec keys :
  keys ≠ [] →
  ∃ m, py_max keys = Some m ∧ m ∈ keys ∧ ∀ x, x ∈ keys → version_lt m x = false.
Proof.
  destruct keys as [|k ks]; [done|]. intros _. eexists. split; [done|].
  apply fold_max_spec.
Qed.

Lemma py_max_none keys : py_max keys = None ↔ keys = [].
Proof. by destruct keys. Qed.

(** The dictionary a loop of [find_latest_version] builds, as a function of
    the version each tag contributes. *)
Lemma collect_snoc f tags tag :
  collect f (tags ++ [tag])
  = match f tag with
    | Some parsed => Dict.set parsed tag (collect f tags)
    | None => collect f tags
    end.
Proof. unfold collect. by rewrite fold_left_app. Qed.

Lemma collect_semantic_eq tags :
  collect_semantic tags = collect semantic_candidate tags.
Proof.
  unfold collect_semantic, collect, semantic_candidate.
  generalize (@nil (Version * text)).
  induction tags as [|t tags IH]; intros d; simpl; [done|].
  rewrite <- IH. by destruct (is_semantic_version t).
Qed.

Lemma collect_numeric_eq tags :
  collect_numeric tags = collect numeric_candidate tags.
Proof.
  unfold collect_numeric, collect, numeric_candidate.
  generalize (@nil (Version * text)).
  induction tags as [|t tags IH]; intros d; simpl; [done|].
  rewrite <- IH. by destruct (is_numeric_tag t).
Qed.

Lemma collect_keys f tags v :
  v ∈ Dict.keys (collect f tags) ↔ ∃ t, t ∈ tags ∧ f t = Some v.
Proof.
  induction tags as [|tag tags IH] using rev_ind.
  - simpl. rewrite elem_of_nil. split; [done|]. by intros (t & ?%elem_of_nil & _).
  - rewrite collect_snoc. destruct (f tag) as [parsed|] eqn:Hf.
    + rewrite dict_keys_set, IH. split.
      * intros [-> |(t & Ht & Hv)].
        -- exists tag. split; [|done]. apply elem_of_app. right. by left.
        -- exists t. split; [|done]. apply elem_of_app. by left.
      * intros (t & [Ht| ->%list_elem_of_singleton]%elem_of_app & Hv).
        -- right. by exists t.
        -- left. congruence.
    + rewrite IH. split.
      * intros (t & Ht & Hv). exists t. split; [|done]. apply elem_of_app. by left.
      * intros (t & [Ht| ->%list_elem_of_singleton]%elem_of_app & Hv).
        -- by exists t.
        -- congruence.
Qed.

Lemma collect_nil f tags :
  collect f tags = [] ↔ ∀ t, t ∈ tags → f t = None.
Proof.
  split.
  - intros Hnil t Ht. destruct (f t) as [v|] eqn:Hf; [|done].
    assert (v ∈ Dict.keys (collect f tags)) as Hv by (apply collect_keys; eauto).
    rewrite Hnil in Hv. by apply elem_of_nil in Hv.
  - intros Hnone. destruct (collect f tags) as [|[v t] d] eqn:Hd; [done|].
    assert (v ∈ Dict.keys (collect f tags)) as (t' & Ht' & Hv)%collect_keys.
    { rewrite Hd. by left. }
    rewrite Hnone in Hv by done. done.
Qed.

(** The tag stored under a version is the last tag that contributes it. *)
Lemma collect_get f tags v t :
  Dict.get v (collect f tags) = Some t ↔
  ∃ before after,
    tags = before ++ t :: after ∧ f t = Some v ∧
    ∀ t', t' ∈ after → f t' ≠ Some v.
Proof.
  revert t. induction tags as [|tag tags IH] using rev_ind; intros t.
  - simpl. split; [done|]. intros (before & after & Heq & _).
    by destruct before.
  - assert (Dict.get v (collect f (tags ++ [tag]))
            = if decide (f tag = Some v) then Some tag
              else Dict.get v (collect f tags)) as ->.
    { rewrite collect_snoc. destruct (f tag) as [parsed|] eqn:Hf.
      - rewrite dict_get_set. destruct (decide (parsed = v)) as [-> |Hne].
        + by rewrite decide_True.
        + rewrite decide_False; [done|congruence].
      - by rewrite decide_False. }
    destruct (decide (f tag = Some v)) as [Hv|Hv].
    + split.
      * intros [= <-]. exists tags, []. repeat split; [done|].
        by intros t' ?%elem_of_nil.
      * intros (before & after & Heq & Hft & Hlast).
        destruct after as [|a after _] using rev_ind.
        -- apply app_inj_tail in Heq as [_ ->]. done.
        -- rewrite app_comm_cons, app_assoc in Heq.
           apply app_inj_tail in Heq as [_ ->].
           exfalso. apply (Hlast a); [|done]. apply elem_of_app. right. by left.
    + rewrite IH. split.
      * intros (before & after & -> & Hft & Hlast).
        exists before, (after ++ [tag]). rewrite <- app_assoc. repeat split; [done|].
        intros t' [Ht'| ->%list_elem_of_singleton]%elem_of_app; [by apply Hlast|done].
      * intros (before & after & Heq & Hft & Hlast).
        destruct after as [|a after _] using rev_ind.
        -- apply app_inj_tail in Heq as [_ ->]. done.
        -- rewrite app_comm_cons, app_assoc in Heq.
           apply app_inj_tail in Heq as [-> ->].
           exists before, after. repeat split; [done|].
           intros t' Ht'. apply Hlast. apply elem_of_app. by left.
Qed.

(** The tag selected from the dictionary of a loop: the last tag among those
    whose version is the greatest. *)
Lemma latest_of_collect f tags t :
  latest_of (collect f tags) = Some t ↔
  ∃ before after v,
    tags = before ++ t :: after ∧ f t = Some v ∧
    (∀ t', t' ∈ after → f t' ≠ Some v) ∧
    (∀ t' v', t' ∈ tags → f t' = Some v' → version_lt v v' = false).
Proof.
  unfold latest_of. split.
  - destruct (py_max _) as [m|] eqn:Hmax; [|done].
    intros Hget.
    destruct (py_max_spec (Dict.keys (collect f tags))) as (m' & Hm' & Hin & Hle).
    { intros Hnil. by rewrite Hnil in Hmax. }
    assert (m' = m) as -> by congruence.
    apply collect_get in Hget as (before & after & Heq & Hft & Hlast).
    exists before, after, m. repeat split; [done..|].
    intros t' v' Ht' Hv'. apply Hle. apply collect_keys. eauto.
  - intros (before & after & v & Heq & Hft & Hlast & Hmaxv).
    assert (v ∈ Dict.keys (collect f tags)) as Hv.
    { apply collect_keys. exists t. split; [|done]. rewrite Heq.
      apply elem_of_app. right. by left. }
    destruct (py_max_spec (Dict.keys (collect f tags))) as (m & -> & Hin & Hle).
    { intros Hnil. rewrite Hnil in Hv. by apply elem_of_nil in Hv. }
    assert (m = v) as ->.
    { apply collect_keys in Hin as (t' & Ht' & Hv').
      apply version_lt_total; [by apply Hle|by eapply Hmaxv]. }
    apply collect_get. eauto.
Qed.

Lemma latest_of_collect_none f tags :
  latest_of (collect f tags) = None ↔ ∀ t, t ∈ tags → f t = None.
Proof.
  rewrite <- collect_nil. unfold latest_of. split.
  - destruct (py_max _) as [m|] eqn:Hmax.
    + intros Hget.
      destruct (py_max_spec (Dict.keys (collect f tags))) as (m' & Hm' & Hin & _).
      { intros Hnil. by rewrite Hnil in Hmax. }
      apply dict_get_is_some in Hin as [t Ht]. congruence.
    + intros _. apply py_max_none in Hmax.
      by destruct (collect f tags).
  - by intros ->.
Qed.

Lemma find_latest_version_eq tags :
  find_latest_version tags
  = if bool_decide (collect semantic_candidate tags = [])
    then latest_of (collect numeric_candidate tags)
    else latest_of (collect semantic_candidate tags).
Proof.
  unfold find_latest_version. rewrite collect_semantic_eq, collect_numeric_eq.
  destruct tags as [|tag tags]; [done|].
  destruct (collect semantic_candidate (tag :: tags)) as [|p d] eqn:Hs.
  - rewrite bool_decide_eq_true_2 by done.
    by destruct (collect numeric_candidate (tag :: tags)).
  - by rewrite bool_decide_eq_false_2.
Qed.

End Selector.

(** ** Greedy repetition *)

Lemma re_plus_some {A} cls (k : text → option A) s run a :
  Re.plus cls k s = Some (run, a) →
  ∃ rest, s = run ++ rest ∧ run ≠ [] ∧ forallb cls run = true ∧ k rest = Some a.
Proof.
  revert run a. induction s as [|c s IH]; intros run a; simpl; [done|].
  destruct (cls c) eqn:Hc; [|done].
  destruct (Re.plus cls k s) as [[run' a']|] eqn:E.
  - intros [= <- <-]. destruct (IH _ _ eq_refl) as (rest & -> & _ & Hrun & Hk).
    exists rest. simpl. rewrite Hc, Hrun. done.
  - destruct (k s) as [a'|] eqn:Hk; [|done].
    intros [= <- <-]. exists s. simpl. by rewrite Hc.
Qed.

Lemma re_plus_is_some {A} cls (k : text → option A) s :
  is_Some (Re.plus cls k s) ↔
  ∃ run rest, s = run ++ rest ∧ run ≠ [] ∧ forallb cls run = true
              ∧ is_Some (k rest).
Proof.
  split.
  - intros [[run a] Hp]. apply re_plus_some in Hp as (rest & ? & ? & ? & ?).
    exists run, rest. eauto.
  - intros (run & rest & -> & Hne & Hrun & Hk).
    induction run as [|c run IH]; [done|]. simpl in *.
    apply andb_true_iff in Hrun as [Hc Hrun]. rewrite Hc.
    destruct run as [|c' run].
    + simpl. destruct (Re.plus cls k rest) as [[? ?]|]; [by eexists|].
      destruct Hk as [a ->]. by eexists.
    + destruct IH as [[run' a] ->]; [done..|]. by eexists.
Qed.

Section NumericPattern.
Context `{PackagingVersion}.
Import VersionNumberCollector.

(** The two patterns of the fallback loop accept the tags that the one
    pattern of the specification accepts. *)
Lemma is_numeric_tag_bare tag : is_numeric_tag tag = bare_numeric tag.
Proof.
  unfold is_numeric_tag, bare_numeric.
  set (k1 := Re.lit (str ".") (Re.plus is_decimal Re.eol)).
  set (k := λ s, match k1 s with Some _ => Some tt | None => Re.eol s end).
  assert (is_Some (Re.plus is_decimal k tag) ↔
          is_Some (Re.plus is_decimal k1 tag)
          ∨ is_Some (Re.plus is_decimal Re.eol tag)) as Hiff.
  { rewrite !re_plus_is_some. split.
    - intros (run & rest & ? & ? & ? & Hk). unfold k in Hk.
      destruct (k1 rest) eqn:Hk1.
      + left. exists run, rest. rewrite Hk1. eauto.
      + right. exists run, rest. eauto.
    - intros [(run & rest & ? & ? & ? & [a Hk])|(run & rest & ? & ? & ? & Hk)];
        exists run, rest; repeat split; try done; unfold k.
      + by rewrite Hk.
      + destruct (k1 rest); [by eexists|done]. }
  destruct (Re.plus is_decimal k tag) as [p|] eqn:E.
  - destruct (proj1 Hiff (mk_is_Some _ _ eq_refl)) as [[p1 ->]|[p2 Hp2]]; [done|].
    rewrite Hp2. by destruct (Re.plus is_decimal k1 tag).
  - destruct (Re.plus is_decimal k1 tag) as [p1|] eqn:E1.
    { destruct (proj2 Hiff) as [? ?]; [left; by eexists|done]. }
    destruct (Re.plus is_decimal Re.eol tag) as [p2|] eqn:E2; [|done].
    destruct (proj2 Hiff) as [? ?]; [right; by eexists|done].
Qed.

End NumericPattern.

(** ** The version selector ([find_latest_version]) *)

Section SelectorTheorems.
Context `{PackagingVersion} `{!PackagingVersionOrder}.
Import VersionNumberCollector.

Lemma semantic_candidate_some t v :
  semantic_candidate t = Some v ↔
  is_semantic_version t = true ∧ parse_version t = Some v.
Proof.
  unfold semantic_candidate. destruct (is_semantic_version t).
  - split; [done|by intros [_ ?]].
  - split; [done|by intros [? _]].
Qed.

Lemma numeric_candidate_some t v :
  numeric_candidate t = Some v ↔
  bare_numeric t = true ∧ version_parse t = Some v.
Proof.
  unfold numeric_candidate. rewrite is_numeric_tag_bare.
  destruct (bare_numeric t).
  - split; [done|by intros [_ ?]].
  - split; [done|by intros [? _]].
Qed.

Lemma latest_of_collect_some f tags :
  (∃ t v, t ∈ tags ∧ f t = Some v) → is_Some (latest_of (collect f tags)).
Proof.
  intros (t & v & Ht & Hv).
  destruct (latest_of (collect f tags)) eqn:E; [by eexists|].
  rewrite latest_of_collect_none in E. rewrite E in Hv; done.
Qed.

Lemma find_latest_semantic tags :
  (∃ t, t ∈ tags ∧ is_semantic_version t = true ∧ is_Some (parse_version t)) →
  ∃ t v,
    find_latest_version tags = Some t ∧ t ∈ tags ∧
    is_semantic_version t = true ∧ parse_version t = Some v ∧
    ∀ t' v', t' ∈ tags → is_semantic_version t' = true →
             parse_version t' = Some v' → version_lt v v' = false.
Proof.
  intros (t0 & Ht0 & Hsem0 & [v0 Hv0]).
  assert (semantic_candidate t0 = Some v0) as Hc0 by by apply semantic_candidate_some.
  rewrite find_latest_version_eq. rewrite bool_decide_eq_false_2.
  2:{ rewrite collect_nil. intros Hnone. rewrite Hnone in Hc0; done. }
  destruct (latest_of_collect_some semantic_candidate tags) as [t Ht]; [eauto|].
  rewrite Ht.
  apply latest_of_collect in Ht as (before & after & v & -> & Hv & _ & Hmax).
  apply semantic_candidate_some in Hv as [Hsem Hv].
  exists t, v. repeat split; try done.
  - apply elem_of_app. right. by left.
  - intros t' v' Ht' Hsem' Hv'. eapply Hmax; [done|].
    by apply semantic_candidate_some.
Qed.

Lemma find_latest_fallback tags :
  (∀ t, t ∈ tags → is_semantic_version t = false) →
  (∀ t, find_latest_version tags = Some t →
        t ∈ tags ∧ bare_numeric t = true ∧
        ∃ v, version_parse t = Some v ∧
             ∀ t' v', t' ∈ tags → bare_numeric t' = true →
                      version_parse t' = Some v' → version_lt v v' = false)
  ∧ ((∃ t, t ∈ tags ∧ bare_numeric t = true ∧ is_Some (version_parse t)) →
     is_Some (find_latest_version tags))
  ∧ ((∀ t, t ∈ tags → bare_numeric t = false) →
     find_latest_version tags = None).
Proof.
  intros Hnosem. rewrite find_latest_version_eq.
  rewrite bool_decide_eq_true_2.
  2:{ apply collect_nil. intros t Ht. unfold semantic_candidate.
      by rewrite Hnosem. }
  split; [|split].
  - intros t Ht.
    apply latest_of_collect in Ht as (before & after & v & -> & Hv & _ & Hmax).
    apply numeric_candidate_some in Hv as [Hnum Hv].
    split; [apply elem_of_app; right; by left|]. split; [done|].
    exists v. split; [done|]. intros t' v' Ht' Hnum' Hv'. eapply Hmax; [done|].
    by apply numeric_candidate_some.
  - intros (t & Ht & Hnum & [v Hv]). apply latest_of_collect_some.
    exists t, v. split; [done|]. by apply numeric_candidate_some.
  - intros Hnonum. apply latest_of_collect_none. intros t Ht.
    unfold numeric_candidate. rewrite is_numeric_tag_bare. by rewrite Hnonum.
Qed.


End SelectorTheorems.

(** C6.  When some tag of the list matches the semantic-version pattern and
    parses, [find_latest_version] returns a tag of the list that matches the
    pattern and parses, and whose version is not less than the version of any
    tag of the list that matches and parses.  For the tags [1.2.3], [1.10.0]
    and [1.9.9] it returns [1.10.0]. *)
Theorem find_latest_version_semantic_maximum :
  (∀ P : PackagingVersion, PackagingVersionOrder →
   ∀ tags : list text,
     (∃ t, t ∈ tags ∧ VersionNumberCollector.is_semantic_version t = true
           ∧ is_Some (VersionNumberCollector.parse_version t)) →
     ∃ t v,
       VersionNumberCollector.find_latest_version tags = Some t ∧ t ∈ tags ∧
       VersionNumberCollector.is_semantic_version t = true ∧
       VersionNumberCollector.parse_version t = Some v ∧
       ∀ t' v', t' ∈ tags →
                VersionNumberCollector.is_semantic_version t' = true →
                VersionNumberCollector.parse_version t' = Some v' →
                version_lt v v' = false)
  ∧ @VersionNumberCollector.find_latest_version Release.packaging
      [str "1.2.3"; str "1.10.0"; str "1.9.9"] = Some (str "1.10.0").
Proof.
  split; [|by vm_compute].
  intros P O tags Hsome. by apply find_latest_semantic.
Qed.

(** C6, witness: the three tags of the example, under the release
    instance. *)
Lemma find_latest_version_semantic_maximum_witness :
  is_Some (@VersionNumberCollector.find_latest_version Release.packaging
             [str "1.2.3"; str "1.10.0"; str "1.9.9"]).
Proof.
  destruct (proj1 find_latest_version_semantic_maximum
              Release.packaging release_order
              [str "1.2.3"; str "1.10.0"; str "1.9.9"])
    as (t & v & Ht & _).
  - exists (str "1.2.3"). split; [by left|]. split; [by vm_compute|].
    by exists [1%N; 2%N; 3%N].
  - exists t. exact Ht.
Defined.

(** C7.  When no tag of the list matches the semantic-version pattern,
    [find_latest_version] selects among the tags that match the bare numeric
    pattern [^(\d+)(\.(\d+))?$] and parse: a tag it returns is such a tag of
    the list and its version is not less than the version of any such tag;
    it returns a tag when there is such a tag; and it returns [None] when no
    tag matches the numeric pattern either.  It returns [None] for the empty
    list.  For the tags [latest], [2.36], [3] and [alpine] it returns [3]. *)
Theorem find_latest_version_numeric_fallback :
  (∀ P : PackagingVersion, PackagingVersionOrder →
   ∀ tags : list text,
     (∀ t, t ∈ tags → VersionNumberCollector.is_semantic_version t = false) →
     (∀ t, VersionNumberCollector.find_latest_version tags = Some t →
           t ∈ tags ∧ VersionNumberCollector.bare_numeric t = true ∧
           ∃ v, version_parse t = Some v ∧
                ∀ t' v', t' ∈ tags →
                         VersionNumberCollector.bare_numeric t' = true →
                         version_parse t' = Some v' → version_lt v v' = false)
     ∧ ((∃ t, t ∈ tags ∧ VersionNumberCollector.bare_numeric t = true
              ∧ is_Some (version_parse t)) →
        is_Some (VersionNumberCollector.find_latest_version tags))
     ∧ ((∀ t, t ∈ tags → VersionNumberCollector.bare_numeric t = false) →
        VersionNumberCollector.find_latest_version tags = None))
  ∧ (∀ P : PackagingVersion, VersionNumberCollector.find_latest_version [] = None)
  ∧ @VersionNumberCollector.find_latest_version Release.packaging
      [str "latest"; str "2.36"; str "3"; str "alpine"] = Some (str "3").
Proof.
  split; [|split; [done|by vm_compute]].
  intros P O tags Hnosem. by apply find_latest_fallback.
Qed.

(** C7, witness: the tags [latest], [2.36], [3] and [alpine]; none is a
    semantic version, [2.36] is numeric and parses. *)
Lemma find_latest_version_numeric_fallback_witness :
  is_Some (@VersionNumberCollector.find_latest_version Release.packaging
             [str "latest"; str "2.36"; str "3"; str "alpine"]).
Proof.
  apply (proj1 find_latest_version_numeric_fallback
           Release.packaging release_order
           [str "latest"; str "2.36"; str "3"; str "alpine"]).
  - intros t Ht. repeat (apply elem_of_cons in Ht as [-> |Ht]; [by vm_compute|]).
    by apply elem_of_nil in Ht.
  - exists (str "2.36"). split; [right; by left|]. split; [by vm_compute|].
    by exists [2%N; 36%N].
Defined.



(** ** The line patterns *)

Lemma forallb_app_true {A} (f : A → bool) l1 l2 :
  forallb f (l1 ++ l2) = true ↔ forallb f l1 = true ∧ forallb f l2 = true.
Proof. rewrite forallb_app. apply andb_true_iff. Qed.

(** A run that cannot be extended is the run a greedy repetition takes. *)
Lemma re_plus_exact {A} cls (k : text → option A) run rest a :
  run ≠ [] → forallb cls run = true →
  match rest with c :: _ => cls c = false | [] => True end →
  k rest = Some a →
  Re.plus cls k (run ++ rest) = Some (run, a).
Proof.
  intros Hne Hrun Hrest Hk. induction run as [|c run IH]; [done|].
  simpl in *. apply andb_true_iff in Hrun as [-> Hrun].
  destruct run as [|c' run].
  - simpl. assert (Re.plus cls k rest = None) as ->; [|by rewrite Hk].
    destruct rest as [|d rest]; [done|]. simpl. by rewrite Hrest.
  - by rewrite IH.
Qed.

Lemma re_plus_none_head {A} cls (k : text → option A) s :
  match s with c :: _ => cls c = false | [] => True end →
  Re.plus cls k s = None.
Proof. destruct s as [|c s]; simpl; [done|]. by intros ->. Qed.

Lemma re_lit_some {A} l (k : text → option A) s a :
  Re.lit l k s = Some a → ∃ rest, s = l ++ rest ∧ k rest = Some a.
Proof.
  unfold Re.lit. destruct (startswith l s) eqn:Hl; [|done].
  intros Hk. exists (drop (length l) s). split; [by apply startswith_app|done].
Qed.

Lemma re_lit_app {A} l (k : text → option A) rest :
  Re.lit l k (l ++ rest) = k rest.
Proof.
  unfold Re.lit. rewrite startswith_refl_app. by rewrite drop_app_length.
Qed.

Lemma span_app_exact cls run rest :
  forallb cls run = true →
  match rest with c :: _ => cls c = false | [] => True end →
  span cls (run ++ rest) = (run, rest).
Proof.
  intros Hrun Hrest. induction run as [|c run IH]; simpl in *.
  - destruct rest as [|d rest]; [done|]. simpl. by rewrite Hrest.
  - apply andb_true_iff in Hrun as [-> Hrun]. by rewrite IH.
Qed.

Lemma first_nonspace_app run c rest :
  forallb is_space run = true → is_space c = false →
  first_nonspace (run ++ c :: rest) = Some c.
Proof.
  intros Hrun Hc. unfold first_nonspace. by rewrite span_app_exact.
Qed.

(** A line on which the image pattern matches: indentation, [image:], white
    space and the image, which runs to the end of the line. *)
Lemma image_line_shape line ws1 ws2 image u :
  Re.plus is_space (Re.lit (str "image:")
    (Re.plus is_space (Re.plus is_dot Re.eol))) line
  = Some (ws1, (ws2, (image, u))) →
  ∃ tail,
    line = ws1 ++ str "image:" ++ ws2 ++ image ++ tail ∧
    ws1 ≠ [] ∧ forallb is_space ws1 = true ∧
    ws2 ≠ [] ∧ forallb is_space ws2 = true ∧
    image ≠ [] ∧ forallb is_dot image = true ∧ (tail = [] ∨ tail = [LF]).
Proof.
  intros Hm.
  apply re_plus_some in Hm as (r1 & -> & Hne1 & Hws1 & Hm).
  apply re_lit_some in Hm as (r2 & -> & Hm).
  apply re_plus_some in Hm as (r3 & -> & Hne2 & Hws2 & Hm).
  apply re_plus_some in Hm as (tail & -> & Hne3 & Himg & Hm).
  exists tail. repeat split; try done.
  unfold Re.eol in Hm. destruct tail as [|c [|? ?]]; [by left| |done].
  destruct (is_code 10 c) eqn:Hc; [|done].
  apply is_code_eq in Hc; [|lia]. subst c. by right.
Qed.

Lemma service_pattern_image_line ws1 rest :
  ws1 ≠ [] → forallb is_space ws1 = true →
  Re.plus is_space (Re.plus is_word (Re.lit (str ":") Re.accept))
    (ws1 ++ str "image:" ++ rest)
  = Some (ws1, (str "image", tt)).
Proof.
  intros Hne Hws. apply re_plus_exact; [done..| |].
  - by vm_compute.
  - by apply (re_plus_exact is_word _ (str "image") (str ":" ++ rest)).
Qed.

(** On an image line the patterns of [add_version_comments.py] both match:
    the service pattern takes the key [image] for a service name. *)
Lemma add_comments_image_is_service line indent image :
  AddVersionComments.image_pattern line = Some (indent, image) →
  AddVersionComments.service_pattern line = Some (indent, str "image").
Proof.
  unfold AddVersionComments.image_pattern, AddVersionComments.service_pattern.
  destruct (Re.plus is_space _ line) as [[ws1 [ws2 [img u]]]|] eqn:Hm; [|done].
  intros [= <- <-].
  apply image_line_shape in Hm as (tail & -> & Hne & Hws & _).
  by rewrite service_pattern_image_line.
Qed.

Lemma compose_image_is_service line prefix image :
  VersionDockerCompose.image_pattern line = Some (prefix, image) →
  VersionDockerCompose.service_pattern line = Some (str "image").
Proof.
  unfold VersionDockerCompose.image_pattern, VersionDockerCompose.service_pattern.
  destruct (Re.plus is_space _ line) as [[ws1 [ws2 [img u]]]|] eqn:Hm; [|done].
  intros [= <- <-].
  apply image_line_shape in Hm as (tail & -> & Hne & Hws & _).
  by rewrite service_pattern_image_line.
Qed.

Lemma compose_image_first line prefix image :
  VersionDockerCompose.image_pattern line = Some (prefix, image) →
  first_nonspace line = Some "i"%char.
Proof.
  unfold VersionDockerCompose.image_pattern.
  destruct (Re.plus is_space _ line) as [[ws1 [ws2 [img u]]]|] eqn:Hm; [|done].
  intros _. apply image_line_shape in Hm as (tail & -> & Hne & Hws & _).
  by apply first_nonspace_app.
Qed.

Lemma version_comment_first line :
  VersionDockerCompose.version_comment_pattern line = true →
  first_nonspace line = Some "#"%char.
Proof.
  unfold VersionDockerCompose.version_comment_pattern.
  destruct (Re.plus is_space _ line) as [[ws u]|] eqn:Hm; [|done].
  intros _. apply re_plus_some in Hm as (r1 & -> & Hne1 & Hws1 & Hm).
  apply re_lit_some in Hm as (r2 & -> & _).
  by apply first_nonspace_app.
Qed.

Lemma service_first line name :
  VersionDockerCompose.service_pattern line = Some name →
  ∃ c, first_nonspace line = Some c ∧ is_word c = true.
Proof.
  unfold VersionDockerCompose.service_pattern.
  destruct (Re.plus is_space _ line) as [[ws [w u]]|] eqn:Hm; [|done].
  intros _. apply re_plus_some in Hm as (r1 & -> & Hne1 & Hws1 & Hm).
  apply re_plus_some in Hm as (r2 & -> & Hne2 & Hw & _).
  destruct w as [|c w]; [done|]. simpl in Hw.
  apply andb_true_iff in Hw as [Hc _]. exists c. split; [|done].
  simpl. apply first_nonspace_app; [done|].
  destruct (is_space c) eqn:Hs; [|done]. apply space_not_word in Hs. congruence.
Qed.

(** A version comment is neither an image line nor a service line. *)
Lemma version_comment_not_image line :
  VersionDockerCompose.version_comment_pattern line = true →
  VersionDockerCompose.image_pattern line = None.
Proof.
  intros Hc%version_comment_first.
  destruct (VersionDockerCompose.image_pattern line) as [[p i]|] eqn:Hi; [|done].
  apply compose_image_first in Hi. congruence.
Qed.

Lemma version_comment_not_service line :
  VersionDockerCompose.version_comment_pattern line = true →
  VersionDockerCompose.service_pattern line = None.
Proof.
  intros Hc%version_comment_first.
  destruct (VersionDockerCompose.service_pattern line) as [n|] eqn:Hs; [|done].
  apply service_first in Hs as (c & Hc' & Hw). rewrite Hc in Hc'.
  injection Hc' as <-. by vm_compute in Hw.
Qed.

(** The comment line of [version_docker_compose.py] is a version comment
    whenever it is indented. *)
Lemma version_comment_made n version :
  0 < n →
  VersionDockerCompose.version_comment_pattern
    (repeat " "%char n ++ str "# Version: " ++ version) = true.
Proof.
  intros Hn. unfold VersionDockerCompose.version_comment_pattern.
  rewrite (re_plus_exact is_space _ (repeat " "%char n)
             (str "# Version: " ++ version) tt); try done.
  - destruct n; [lia|done].
  - clear Hn. induction n; [done|]. simpl. exact IHn.
Qed.

(** ** Annotation by [add_version_comments.py] *)

Section AddComments.
Import AddVersionComments.
Implicit Types (cv : gmap text (option text)) (st : state) (line : text).

(** The version the script annotates an image with: the value stored for
    the container, unless it is missing, [null], [unknown] or [latest]. *)
Lemma add_comments_step_image cv st line indent image :
  image_pattern line = Some (indent, image) →
  (∀ v, cv !! Image.container image = Some (Some v) →
        v ≠ str "unknown" → v ≠ str "latest" →
        (step cv st line).1.2
        = [indent ++ str "# Version: " ++ v ++ [LF]; line])
  ∧ (cv !! Image.container image = None
     ∨ cv !! Image.container image = Some None
     ∨ cv !! Image.container image = Some (Some (str "unknown"))
     ∨ cv !! Image.container image = Some (Some (str "latest")) →
     (step cv st line).1.2 = [line] ∧ (step cv st line).2 = []).
Proof.
  intros Himg. unfold step.
  rewrite (add_comments_image_is_service _ _ _ Himg), Himg. simpl.
  split.
  - intros v -> Hu%text_eqb_neq Hl%text_eqb_neq. simpl. by rewrite Hu, Hl.
  - intros [-> |[-> |[-> | ->]]]; done.
Qed.

Lemma add_comments_step_other cv st line :
  image_pattern line = None →
  (step cv st line).1.2 = [line] ∧ (step cv st line).2 = [].
Proof. intros Himg. unfold step. by rewrite Himg. Qed.



End AddComments.

(** C4, on a concrete input.  [add_version_comments] inserts the comment
    for [nginx] once more when it is run on its own output: the second
    output has the comment line twice and differs from the first. *)
Theorem add_version_comments_twice :
  let once :=
    (AddVersionComments.add_version_comments Examples.nginx_lines
       (Examples.nginx_version "1.25.3")).1 in
  let twice :=
    (AddVersionComments.add_version_comments once
       (Examples.nginx_version "1.25.3")).1 in
  once = [str "services:" ++ [LF]; str "  web:" ++ [LF];
          str "    # Version: 1.25.3" ++ [LF]; str "    image: nginx" ++ [LF]]
  ∧ twice = [str "services:" ++ [LF]; str "  web:" ++ [LF];
             str "    # Version: 1.25.3" ++ [LF];
             str "    # Version: 1.25.3" ++ [LF];
             str "    image: nginx" ++ [LF]]
  ∧ twice ≠ once.
Proof. vm_compute. repeat split. discriminate. Qed.

(** ** Rewriting by [version_docker_compose.py] *)

Section Compose.
Import VersionDockerCompose.
Implicit Types (cv : gmap text (option text)) (cs : option text) (line : text).

Lemma indent_prefix_length line prefix image :
  image_pattern line = Some (prefix, image) →
  0 < length prefix - length (str "image: ").
Proof.
  unfold image_pattern.
  destruct (Re.plus is_space _ line) as [[ws1 [ws2 [img u]]]|] eqn:Hm; [|done].
  intros [= <- <-].
  apply image_line_shape in Hm as (tail & _ & Hne1 & _ & Hne2 & _).
  rewrite !length_app. destruct ws1, ws2; try done. simpl. lia.
Qed.

(** The state after a line does not depend on what the line emits. *)
Lemma step_state ut se cv cs line :
  (step ut se cv cs line).1.1
  = match service_pattern line with Some name => Some name | None => cs end.
Proof.
  unfold step. destruct (_ && _); [done|].
  destruct (image_pattern line) as [[prefix image]|]; [|done].
  destruct (truthy _); [|done].
  destruct (Image.split image) as [container tag].
  destruct (usable_version cv container); [|done].
  by destruct (_ && _).
Qed.

(** The four things a line can become. *)
Lemma step_cases ut se cv cs line :
  ((step ut se cv cs line).1.2 = [line] ∧ (step ut se cv cs line).2 = [])
  ∨ (se = true ∧ version_comment_pattern line = true ∧
     (step ut se cv cs line).1.2 = [] ∧ (step ut se cv cs line).2 = [])
  ∨ (∃ prefix image version,
       image_pattern line = Some (prefix, image) ∧
       usable_version cv (Image.split image).1 = Some version ∧
       (step ut se cv cs line).1.2
       = [repeat " "%char (length prefix - length (str "image: "))
          ++ str "# Version: " ++ version; line] ∧
       (step ut se cv cs line).2 = [comment_added (str "image") image version])
  ∨ (∃ prefix image version,
       ut = true ∧
       image_pattern line = Some (prefix, image) ∧
       ((Image.split image).2 = str "latest" ∨ (Image.split image).1 = image) ∧
       usable_version cv (Image.split image).1 = Some version ∧
       (step ut se cv cs line).1.2
       = [repeat " "%char (length prefix - length (str "image: "))
          ++ str "# Version: " ++ version;
          prefix ++ (Image.split image).1 ++ str ":" ++ version] ∧
       (step ut se cv cs line).2
       = [tag_updated (str "image") image
            ((Image.split image).1 ++ str ":" ++ version) version]).
Proof.
  unfold step.
  destruct (version_comment_pattern line) eqn:Hvc; destruct se; simpl;
    try (right; left; done).
  - rewrite (version_comment_not_image _ Hvc). by left.
  - destruct (image_pattern line) as [[prefix image]|] eqn:Himg; [|by left].
    rewrite (compose_image_is_service _ _ _ Himg). simpl.
    destruct (Image.split image) as [container tag] eqn:Hsplit. simpl.
    destruct (usable_version cv container) as [version|] eqn:Hv; [|by left].
    destruct (ut && _) eqn:Hut.
    + do 3 right. apply andb_true_iff in Hut as [-> Hor].
      exists prefix, image, version. rewrite Hsplit. simpl.
      repeat split; try done.
      apply orb_true_iff in Hor as [?%text_eqb_eq|?%text_eqb_eq]; auto.
    + do 2 right. left. exists prefix, image, version. by rewrite Hsplit.
  - destruct (image_pattern line) as [[prefix image]|] eqn:Himg; [|by left].
    rewrite (compose_image_is_service _ _ _ Himg). simpl.
    destruct (Image.split image) as [container tag] eqn:Hsplit. simpl.
    destruct (usable_version cv container) as [version|] eqn:Hv; [|by left].
    destruct (ut && _) eqn:Hut.
    + do 3 right. apply andb_true_iff in Hut as [-> Hor].
      exists prefix, image, version. rewrite Hsplit. simpl.
      repeat split; try done.
      apply orb_true_iff in Hor as [?%text_eqb_eq|?%text_eqb_eq]; auto.
    + do 2 right. left. exists prefix, image, version. by rewrite Hsplit.
Qed.


End Compose.

Section ComposeRuns.
Import VersionDockerCompose.
Implicit Types (cv : gmap text (option text)) (cs : option text) (line : text).

Lemma run_cons ut se cv cs line lines :
  run ut se cv cs (line :: lines)
  = ((step ut se cv cs line).1.2
       ++ (run ut se cv (step ut se cv cs line).1.1 lines).1,
     (step ut se cv cs line).2
       ++ (run ut se cv (step ut se cv cs line).1.1 lines).2).
Proof.
  cbn [run]. destruct (step ut se cv cs line) as [[cs' out] chg].
  cbn [fst snd]. by destruct (run ut se cv cs' lines).
Qed.

(** In annotate mode with existing comments skipped, a second pass over the
    lines of the first changes nothing: the comments of the first pass are
    removed and written again. *)
Lemma run_annotate_idempotent cv cs lines :
  run false true cv cs (run false true cv cs lines).1
  = run false true cv cs lines.
Proof.
  revert cs. induction lines as [|line lines IH]; intros cs; [done|].
  rewrite (run_cons _ _ _ _ line lines).
  pose proof (step_state false true cv cs line) as Hst.
  set (cs' := (step false true cv cs line).1.1) in *.
  specialize (IH cs').
  destruct (step_cases false true cv cs line)
    as [[Hout Hchg]|[(_ & Hvc & Hout & Hchg)
       |[(p & i & v & Himg & _ & Hout & Hchg)|(p & i & v & Hut & _)]]];
    [| | |done].
  - rewrite Hout, Hchg. cbn [fst snd].
    change ([line] ++ ?l) with (line :: l). rewrite run_cons.
    fold cs'. rewrite Hout, Hchg, IH. done.
  - rewrite Hout, Hchg. cbn [fst snd app]. rewrite (version_comment_not_service _ Hvc) in Hst.
    rewrite <- Hst, IH. by destruct (run false true cv cs' lines).
  - assert (version_comment_pattern
              (repeat " "%char (length p - length (str "image: "))
               ++ str "# Version: " ++ v) = true) as Hvc.
    { apply version_comment_made. by eapply indent_prefix_length. }
    revert Hout Hvc.
    generalize (repeat " "%char (length p - length (str "image: "))
                ++ str "# Version: " ++ v).
    intros comment Hout Hvc. rewrite Hout, Hchg. cbn [fst snd].
    change ([comment; line] ++ ?l) with (comment :: line :: l).
    rewrite run_cons.
    assert (step false true cv cs comment = (cs, [], [])) as ->.
    { unfold step. rewrite Hvc. simpl.
      by rewrite (version_comment_not_service _ Hvc). }
    cbn [fst snd app]. rewrite run_cons. fold cs'.
    rewrite Hout, Hchg, IH. done.
Qed.





(** The version the script annotates an image with: the value stored for
    the container, unless it is missing, [null], [unknown] or [UNKNOWN]. *)
Lemma step_annotates se cv cs line prefix image :
  image_pattern line = Some (prefix, image) →
  (∀ v, cv !! (Image.split image).1 = Some (Some v) →
        v ≠ str "unknown" → v ≠ str "UNKNOWN" →
        (step false se cv cs line).1.2
        = [repeat " "%char (length prefix - length (str "image: "))
           ++ str "# Version: " ++ v; line])
  ∧ (cv !! (Image.split image).1 = None
     ∨ cv !! (Image.split image).1 = Some None
     ∨ cv !! (Image.split image).1 = Some (Some (str "unknown"))
     ∨ cv !! (Image.split image).1 = Some (Some (str "UNKNOWN")) →
     (step false se cv cs line).1.2 = [line]
     ∧ (step false se cv cs line).2 = []).
Proof.
  intros Himg.
  assert (version_comment_pattern line = false) as Hvc.
  { destruct (version_comment_pattern line) eqn:Hvc; [|done].
    apply version_comment_not_image in Hvc. congruence. }
  unfold step. rewrite Hvc, Himg, (compose_image_is_service _ _ _ Himg).
  cbn [andb truthy str list_ascii_of_string].
  destruct (Image.split image) as [container tag]. cbn [fst snd].
  unfold usable_version. split.
  - intros v -> Hu%text_eqb_neq Hl%text_eqb_neq. by rewrite Hu, Hl.
  - intros [-> |[-> |[-> | ->]]]; done.
Qed.

End ComposeRuns.

(** The text that [version_docker_compose.py] returns has lost the final
    line feed of its input, so that a second run on a text that ended in an
    empty line returns yet another text. *)
Example final_line_feed_is_lost :
  VersionDockerCompose.add_version_comments_and_update_tags
    (str "services:" ++ [LF]) ∅ false true
  = (str "services:", [])
  ∧ VersionDockerCompose.add_version_comments_and_update_tags
      (str "services:" ++ [LF; LF]) ∅ false true
    = (str "services:" ++ [LF], []).
Proof. by vm_compute. Qed.

(** ** Replacement by [update_compose_versions.py] *)

Section UpdateCompose.
Import UpdateComposeVersions.
Implicit Types (cv : gmap text (option text)) (s t image : text).




Lemma patched_refl old new s : patched old new s s.
Proof. induction s; [apply patched_nil|by apply patched_keep]. Qed.




Lemma patched_by_app rs1 rs2 s m t :
  patched_by rs1 s m → patched_by rs2 m t → patched_by (rs1 ++ rs2) s t.
Proof.
  intros H1. revert t. induction H1; intros t' H2; simpl; [done|].
  econstructor; [done|]. by apply IHpatched_by.
Qed.




End UpdateCompose.

(** ** Declarations that a replacement cannot reach *)

Section Declarations.
Import UpdateComposeVersions.
Implicit Types (s t u post image : text).












End Declarations.

(** ** Rewriting: what the scripts keep and what they change *)

(** C1, on a concrete input.  For the image written in double quotes and
    the resolved version [v1.9.0], [update_versions] returns the document
    as it was, still holding [qdrant/qdrant:latest], together with a record
    whose new image is [qdrant/qdrant:v1.9.0]; [version_docker_compose.py]
    changes no line and records nothing.  The same image written plainly is
    replaced. *)
Theorem update_versions_quoted_image :
  UpdateComposeVersions.update_versions
    (Examples.read Examples.qdrant_quoted_rows)
    Examples.qdrant_services Examples.qdrant_versions
  = Some (Examples.read Examples.qdrant_quoted_rows,
          [{| UpdateComposeVersions.service := str "cache";
              UpdateComposeVersions.old_image := str "qdrant/qdrant:latest";
              UpdateComposeVersions.new_image := str "qdrant/qdrant:v1.9.0" |}])
  ∧ VersionDockerCompose.rewrite_lines true true Examples.qdrant_versions
      Examples.qdrant_quoted_rows
    = (Examples.qdrant_quoted_rows, [])
  ∧ UpdateComposeVersions.update_versions
      (Examples.read Examples.qdrant_plain_rows)
      Examples.qdrant_services Examples.qdrant_versions
    = Some (Examples.read
              [str "services:"; str "  cache:";
               str "    image: qdrant/qdrant:v1.9.0"],
            [{| UpdateComposeVersions.service := str "cache";
                UpdateComposeVersions.old_image := str "qdrant/qdrant:latest";
                UpdateComposeVersions.new_image := str "qdrant/qdrant:v1.9.0" |}]).
Proof. by vm_compute. Qed.

(** C3, on a concrete input.  With the resolved tag [latest] for [nginx],
    [version_docker_compose.py] in annotate mode writes the comment
    [# Version: latest] before the image line and records it, while
    [add_version_comments.py] leaves the lines as they are. *)
Theorem annotate_with_latest :
  VersionDockerCompose.rewrite_lines false true
    (Examples.nginx_version "latest") Examples.nginx_rows
  = ([str "services:"; str "  web:"; str "    # Version: latest";
      str "    image: nginx"],
     [VersionDockerCompose.comment_added (str "image") (str "nginx")
        (str "latest")])
  ∧ AddVersionComments.add_version_comments Examples.nginx_lines
      (Examples.nginx_version "latest")
    = (Examples.nginx_lines, []).
Proof. by vm_compute. Qed.






(** * Further properties *)

(** ** The version selector *)

Section SelectorMore.
Context `{PackagingVersion}.
Import VersionNumberCollector.

Lemma latest_of_member f tags t :
  latest_of (collect f tags) = Some t → t ∈ tags ∧ is_Some (f t).
Proof.
  unfold latest_of. destruct (py_max _) as [m|]; [|done].
  intros (before & after & -> & Hf & _)%collect_get.
  split; [|by eexists]. apply elem_of_app. right. by left.
Qed.

Lemma collect_filter f (keep : text → bool) tags :
  (∀ t, t ∈ tags → keep t = false → f t = None) →
  collect f (filter (λ t, keep t = true) tags) = collect f tags.
Proof.
  unfold collect. generalize (@nil (Version * text)).
  induction tags as [|tag tags IH]; intros d Hdrop; [done|].
  rewrite filter_cons. destruct (keep tag) eqn:Hk.
  - rewrite decide_True by done. simpl. apply IH.
    intros t Ht. apply Hdrop. by right.
  - rewrite decide_False by done. simpl.
    rewrite (Hdrop tag) by (done || by left). apply IH.
    intros t Ht. apply Hdrop. by right.
Qed.

Lemma find_latest_member tags t :
  find_latest_version tags = Some t → t ∈ tags ∧ t ≠ [].
Proof.
  rewrite find_latest_version_eq.
  destruct (bool_decide _); intros [Ht [v Hv]]%latest_of_member;
    (split; [done|]); intros ->; by vm_compute in Hv.
Qed.

End SelectorMore.

(** X1.  [find_latest_version] never makes a tag up: what it returns is a tag
    of the list it was given, and that tag matches the semantic-version
    pattern, or else no tag of the list is stored by the first loop and the
    tag matches the numeric pattern.  No property of the version comparison
    is needed. *)
Theorem find_latest_version_is_a_tag :
  ∀ (P : PackagingVersion) (tags : list text) (t : text),
    VersionNumberCollector.find_latest_version tags = Some t →
    t ∈ tags
    ∧ (VersionNumberCollector.is_semantic_version t = true
       ∨ ((∀ t', t' ∈ tags →
                 VersionNumberCollector.semantic_candidate t' = None)
          ∧ VersionNumberCollector.bare_numeric t = true)).
Proof.
  intros P tags t. rewrite find_latest_version_eq.
  destruct (bool_decide _) eqn:Hsem.
  - apply bool_decide_eq_true in Hsem.
    intros [Ht [v Hv]]%latest_of_member. split; [done|]. right.
    split; [by apply collect_nil|].
    by apply numeric_candidate_some in Hv as [? _].
  - intros [Ht [v Hv]]%latest_of_member. split; [done|]. left.
    by apply semantic_candidate_some in Hv as [? _].
Qed.

(** X1, witness: the tags [latest], [1.2.3] and [1.10.0]. *)
Lemma find_latest_version_is_a_tag_witness :
  str "1.10.0" ∈ [str "latest"; str "1.2.3"; str "1.10.0"].
Proof.
  apply (find_latest_version_is_a_tag Release.packaging
           [str "latest"; str "1.2.3"; str "1.10.0"] (str "1.10.0")).
  by vm_compute.
Defined.

(** X2.  Tags that neither loop stores, such as [latest] or [alpine], have
    no influence: removing any of them from the list leaves the result of
    [find_latest_version] as it is. *)
Theorem find_latest_version_ignores_other_tags :
  ∀ (P : PackagingVersion) (keep : text → bool) (tags : list text),
    (∀ t, t ∈ tags → keep t = false →
          VersionNumberCollector.semantic_candidate t = None
          ∧ VersionNumberCollector.numeric_candidate t = None) →
    VersionNumberCollector.find_latest_version (filter (λ t, keep t = true) tags)
    = VersionNumberCollector.find_latest_version tags.
Proof.
  intros P keep tags Hdrop. rewrite !find_latest_version_eq.
  rewrite !collect_filter; [done|..]; intros t Ht Hk; by apply Hdrop.
Qed.

(** X2, witness: [latest] and [alpine] removed from a list of four tags. *)
Lemma find_latest_version_ignores_other_tags_witness :
  @VersionNumberCollector.find_latest_version Release.packaging
    (filter (λ t, VersionNumberCollector.is_semantic_version t = true)
       [str "latest"; str "1.2.3"; str "alpine"; str "1.10.0"])
  = @VersionNumberCollector.find_latest_version Release.packaging
      [str "latest"; str "1.2.3"; str "alpine"; str "1.10.0"].
Proof.
  apply (find_latest_version_ignores_other_tags Release.packaging
           VersionNumberCollector.is_semantic_version).
  intros t Ht Hk.
  repeat (apply elem_of_cons in Ht as [-> |Ht];
          [by vm_compute || by vm_compute in Hk|]).
  by apply elem_of_nil in Ht.
Defined.

Section SelectorOrder.
Context `{PackagingVersion} `{!PackagingVersionOrder}.
Import VersionNumberCollector.

(** With one tag per version the greatest version has one tag, whatever the
    order of the list. *)
Lemma latest_of_collect_perm f tags tags' :
  tags ≡ₚ tags' →
  (∀ t1 t2 v, t1 ∈ tags → t2 ∈ tags → f t1 = Some v → f t2 = Some v → t1 = t2) →
  latest_of (collect f tags) = latest_of (collect f tags').
Proof.
  intros Hperm Hinj.
  destruct (latest_of (collect f tags)) as [t|] eqn:Ht.
  - apply latest_of_collect in Ht as (before & after & v & Heq & Hv & _ & Hmax).
    assert (t ∈ tags) as Hin.
    { rewrite Heq. apply elem_of_app. right. by left. }
    destruct (latest_of_collect_some f tags') as [t' Ht'].
    { exists t, v. split; [by rewrite <- Hperm|done]. }
    rewrite Ht'.
    apply latest_of_collect in Ht'
      as (before' & after' & v' & Heq' & Hv' & _ & Hmax').
    assert (t' ∈ tags) as Hin'.
    { rewrite Hperm, Heq'. apply elem_of_app. right. by left. }
    assert (v = v') as <-.
    { apply version_lt_total.
      - by eapply Hmax.
      - eapply Hmax'; [|done]. by rewrite <- Hperm. }
    f_equal. symmetry. by eapply Hinj.
  - symmetry. apply latest_of_collect_none.
    rewrite latest_of_collect_none in Ht.
    intros t' Ht'. apply Ht. by rewrite Hperm.
Qed.

Lemma find_latest_version_perm tags tags' :
  tags ≡ₚ tags' →
  (∀ t1 t2 v, t1 ∈ tags → t2 ∈ tags →
              semantic_candidate t1 = Some v → semantic_candidate t2 = Some v →
              t1 = t2) →
  (∀ t1 t2 v, t1 ∈ tags → t2 ∈ tags →
              numeric_candidate t1 = Some v → numeric_candidate t2 = Some v →
              t1 = t2) →
  find_latest_version tags = find_latest_version tags'.
Proof.
  intros Hperm Hsem Hnum. rewrite !find_latest_version_eq.
  assert (bool_decide (collect semantic_candidate tags = [])
          = bool_decide (collect semantic_candidate tags' = [])) as <-.
  { apply bool_decide_ext. rewrite !collect_nil. split.
    - intros Hnone t Ht. apply Hnone. by rewrite Hperm.
    - intros Hnone t Ht. apply Hnone. by rewrite <- Hperm. }
  destruct (bool_decide _); by apply latest_of_collect_perm.
Qed.

End SelectorOrder.

(** X3.  When no two tags of the list stand for the same version, the result
    of [find_latest_version] does not depend on the order in which the
    registry lists the tags. *)
Theorem find_latest_version_order_of_tags :
  ∀ P : PackagingVersion, PackagingVersionOrder →
  ∀ tags tags' : list text,
    tags ≡ₚ tags' →
    (∀ t1 t2 v, t1 ∈ tags → t2 ∈ tags →
                VersionNumberCollector.semantic_candidate t1 = Some v →
                VersionNumberCollector.semantic_candidate t2 = Some v →
                t1 = t2) →
    (∀ t1 t2 v, t1 ∈ tags → t2 ∈ tags →
                VersionNumberCollector.numeric_candidate t1 = Some v →
                VersionNumberCollector.numeric_candidate t2 = Some v →
                t1 = t2) →
    VersionNumberCollector.find_latest_version tags
    = VersionNumberCollector.find_latest_version tags'.
Proof. intros P O tags tags'. apply find_latest_version_perm. Qed.

(** X3, witness: [1.2.3] and [1.10.0] in both orders. *)
Lemma find_latest_version_order_of_tags_witness :
  @VersionNumberCollector.find_latest_version Release.packaging
    [str "1.2.3"; str "1.10.0"]
  = @VersionNumberCollector.find_latest_version Release.packaging
      [str "1.10.0"; str "1.2.3"].
Proof.
  apply (find_latest_version_order_of_tags Release.packaging release_order).
  - apply Permutation_swap.
  - intros t1 t2 v Ht1 Ht2.
    repeat (apply elem_of_cons in Ht1 as [-> |Ht1]);
      repeat (apply elem_of_cons in Ht2 as [-> |Ht2]);
      try (by apply elem_of_nil in Ht1); try (by apply elem_of_nil in Ht2);
      try done; vm_compute; congruence.
  - intros t1 t2 v Ht1 Ht2.
    repeat (apply elem_of_cons in Ht1 as [-> |Ht1]);
      repeat (apply elem_of_cons in Ht2 as [-> |Ht2]);
      try (by apply elem_of_nil in Ht1); try (by apply elem_of_nil in Ht2);
      try done; vm_compute; congruence.
Defined.

(** ** The report of [check_docker_versions.py] *)

Section ReportMore.
Context `{PackagingVersion}.
Import CheckDockerVersions.

Lemma classify_in_compose compose_version latest_version :
  classify compose_version latest_version ≠ NOT_IN_COMPOSE_FILE.
Proof.
  unfold classify. destruct (text_eqb _ _); [done|].
  destruct (parse_version_str compose_version) as [vc|]; [|done].
  destruct (parse_version_str latest_version) as [vl|]; [|done].
  by destruct (version_lt vc vl).
Qed.

Lemma parse_version_str_v s :
  startswith (str "v") s = false →
  parse_version_str (str "v" ++ s) = parse_version_str s.
Proof. intros Hs. unfold parse_version_str. by rewrite Hs. Qed.



End ReportMore.


(** X5.  [compare_versions] reports the containers of [latest_versions], one
    row each and in their order, with their latest version; a container of
    the compose file that has no latest version gets no row.  A row has the
    status [NOT IN COMPOSE FILE] exactly when its container is not in the
    compose versions, and otherwise shows the compose version. *)
Theorem compare_versions_rows :
  ∀ (P : PackagingVersion) (compose_versions : gmap text text)
    (latest_versions : list (text * text)),
    map (λ r, (CheckDockerVersions.r_container r,
               CheckDockerVersions.r_latest_version r))
      (CheckDockerVersions.compare_versions compose_versions latest_versions)
    = latest_versions
    ∧ ∀ r, r ∈ CheckDockerVersions.compare_versions compose_versions
                 latest_versions →
           (CheckDockerVersions.r_status r
            = CheckDockerVersions.NOT_IN_COMPOSE_FILE ↔
            compose_versions !! CheckDockerVersions.r_container r = None)
           ∧ (∀ v, compose_versions !! CheckDockerVersions.r_container r
                   = Some v →
                   CheckDockerVersions.r_compose_version r = v).
Proof.
  intros P cv lv. unfold CheckDockerVersions.compare_versions. split.
  - induction lv as [|[c l] lv IH]; [done|]. simpl. rewrite IH. f_equal.
    unfold CheckDockerVersions.compare_one. by destruct (cv !! c).
  - intros r ([c l] & -> & _)%list_elem_of_fmap.
    unfold CheckDockerVersions.compare_one. simpl.
    destruct (cv !! c) as [v|] eqn:Hc; simpl; rewrite Hc.
    + split; [|by intros v' [= ->]].
      split; [|done]. intros Hs. by apply classify_in_compose in Hs.
    + done.
Qed.

Section ClassifyOrder.
Context `{PackagingVersion} `{!PackagingVersionOrder}.
Import CheckDockerVersions.

Lemma classify_update_available_spec a b :
  classify a b = UPDATE_AVAILABLE →
  a ≠ str "latest" ∧
  ∃ va vb, parse_version_str a = Some va ∧ parse_version_str b = Some vb
           ∧ version_lt va vb = true.
Proof.
  unfold classify. destruct (text_eqb _ _) eqn:E; [done|].
  apply text_eqb_neq in E.
  destruct (parse_version_str a) as [va|]; [|done].
  destruct (parse_version_str b) as [vb|]; [|done].
  destruct (version_lt va vb) eqn:Hlt; [|done]. intros _. split; [done|].
  by exists va, vb.
Qed.

Lemma classify_one_way a b :
  classify a b = UPDATE_AVAILABLE → classify b a ≠ UPDATE_AVAILABLE.
Proof.
  intros (Ha & va & vb & Hva & Hvb & Hlt)%classify_update_available_spec
         (Hb & vb' & va' & Hvb' & Hva' & Hlt')%classify_update_available_spec.
  assert (va' = va) as -> by congruence.
  assert (vb' = vb) as -> by congruence.
  pose proof (version_lt_trans _ _ _ Hlt Hlt') as Hcycle.
  by rewrite version_lt_irrefl in Hcycle.
Qed.

End ClassifyOrder.

(** X6.  The comparison never reports an update in both directions: when
    the status of a compose version against a latest version is
    [UPDATE AVAILABLE], the status with the two exchanged is not; so a
    version is never reported as an update of itself. *)
Theorem update_available_one_way :
  ∀ P : PackagingVersion, PackagingVersionOrder →
  ∀ a b : text,
    CheckDockerVersions.classify a b = CheckDockerVersions.UPDATE_AVAILABLE →
    CheckDockerVersions.classify b a ≠ CheckDockerVersions.UPDATE_AVAILABLE
    ∧ a ≠ b.
Proof.
  intros P O a b Hab. split; [by apply classify_one_way|].
  intros ->. by apply (classify_one_way b b Hab).
Qed.

(** X6, witness: [1.2.0] against [1.3.0]. *)
Lemma update_available_one_way_witness :
  @CheckDockerVersions.classify Release.packaging (str "1.3.0") (str "1.2.0")
  ≠ CheckDockerVersions.UPDATE_AVAILABLE.
Proof.
  apply (update_available_one_way Release.packaging release_order
           (str "1.2.0") (str "1.3.0")).
  by vm_compute.
Defined.

(** X7.  A leading [v] plays no part in the comparison: for a version text
    that does not itself start with [v], putting a [v] in front of the
    compose version (other than the tag [latest]) or of the latest version
    gives the same status. *)
Theorem classify_ignores_v :
  ∀ (P : PackagingVersion) (compose_version latest_version : text),
    (startswith (str "v") compose_version = false →
     compose_version ≠ str "latest" →
     CheckDockerVersions.classify (str "v" ++ compose_version) latest_version
     = CheckDockerVersions.classify compose_version latest_version)
    ∧ (startswith (str "v") latest_version = false →
       CheckDockerVersions.classify compose_version (str "v" ++ latest_version)
       = CheckDockerVersions.classify compose_version latest_version).
Proof.
  intros P c l. unfold CheckDockerVersions.classify. split.
  - intros Hv Hne%text_eqb_neq. rewrite Hne.
    rewrite parse_version_str_v by done.
    by rewrite (proj2 (text_eqb_neq (str "v" ++ c) (str "latest"))).
  - intros Hv. by rewrite parse_version_str_v.
Qed.

(** X7, witness: [v1.2.0] and [1.2.0] against [v1.3.0] and [1.3.0]. *)
Lemma classify_ignores_v_witness :
  @CheckDockerVersions.classify Release.packaging (str "v1.2.0") (str "1.3.0")
  = @CheckDockerVersions.classify Release.packaging (str "1.2.0") (str "1.3.0")
  ∧ @CheckDockerVersions.classify Release.packaging (str "1.2.0") (str "v1.3.0")
    = @CheckDockerVersions.classify Release.packaging (str "1.2.0") (str "1.3.0").
Proof.
  split.
  - apply (proj1 (classify_ignores_v Release.packaging (str "1.2.0")
                    (str "1.3.0"))); [by vm_compute|].
    vm_compute. discriminate.
  - apply (proj2 (classify_ignores_v Release.packaging (str "1.2.0")
                    (str "1.3.0"))). by vm_compute.
Defined.

(** ** The tag picked by [get_latest_version] *)

Section Picked.
Import GetLatestVersion.

Lemma scan_results_found names name :
  scan_results names = found name ↔
  ∃ before after,
    names = before ++ name :: after ∧ version_like name = Some true ∧
    ∀ b, b ∈ before → version_like b = Some false.
Proof.
  induction names as [|n names IH]; simpl.
  - split; [done|]. intros (before & after & Heq & _). by destruct before.
  - destruct (version_like n) as [[]|] eqn:Hn.
    + split.
      * intros [= <-]. exists [], names. split; [done|]. split; [done|].
        by intros b ?%elem_of_nil.
      * intros ([|b before] & after & Heq & Hname & Hbefore).
        -- by injection Heq as ->.
        -- injection Heq as -> _.
           rewrite (Hbefore b) in Hn by (by left). done.
    + rewrite IH. split.
      * intros (before & after & -> & Hname & Hbefore).
        exists (n :: before), after. split; [done|]. split; [done|].
        intros b [-> |Hb]%elem_of_cons; [done|by apply Hbefore].
      * intros ([|b before] & after & Heq & Hname & Hbefore).
        -- injection Heq as -> _. congruence.
        -- injection Heq as -> ->. exists before, after.
           split; [done|]. split; [done|].
           intros b' Hb'. apply Hbefore. by right.
    + split; [done|].
      intros ([|b before] & after & Heq & Hname & Hbefore).
      * injection Heq as -> _. congruence.
      * injection Heq as -> _. rewrite (Hbefore b) in Hn by (by left). done.
Qed.

Lemma scan_results_raised names :
  scan_results names = raised ↔
  ∃ before after,
    names = before ++ [] :: after ∧
    ∀ b, b ∈ before → version_like b = Some false.
Proof.
  assert (∀ n, version_like n = None ↔ n = []) as Hnone.
  { intros n. unfold version_like. destruct (_ && _) eqn:E.
    - split; [done|]. intros ->. done.
    - by destruct n. }
  induction names as [|n names IH]; simpl.
  - split; [done|]. intros (before & after & Heq & _). by destruct before.
  - destruct (version_like n) as [[]|] eqn:Hn.
    + split; [done|].
      intros ([|b before] & after & Heq & Hbefore).
      * injection Heq as ->. by vm_compute in Hn.
      * injection Heq as -> _. rewrite (Hbefore b) in Hn by (by left). done.
    + rewrite IH. split.
      * intros (before & after & -> & Hbefore).
        exists (n :: before), after. split; [done|].
        intros b [-> |Hb]%elem_of_cons; [done|by apply Hbefore].
      * intros ([|b before] & after & Heq & Hbefore).
        -- injection Heq as -> _. by vm_compute in Hn.
        -- injection Heq as -> ->. exists before, after. split; [done|].
           intros b' Hb'. apply Hbefore. by right.
    + apply Hnone in Hn as ->. split; [|done]. intros _.
      exists [], names. split; [done|]. by intros b ?%elem_of_nil.
Qed.

Lemma scan_results_exhausted names :
  scan_results names = exhausted ↔ ∀ n, n ∈ names → version_like n = Some false.
Proof.
  induction names as [|n names IH]; simpl.
  - split; [|done]. by intros _ n ?%elem_of_nil.
  - destruct (version_like n) as [[]|] eqn:Hn.
    + split; [done|]. intros Hall. rewrite (Hall n) in Hn by (by left). done.
    + rewrite IH. split.
      * intros Hall b [-> |Hb]%elem_of_cons; [done|by apply Hall].
      * intros Hall b Hb. apply Hall. by right.
    + split; [done|]. intros Hall. rewrite (Hall n) in Hn by (by left). done.
Qed.

End Picked.

(** X8.  [get_latest_version] returns the first entry of the registry answer
    that looks like a version, whatever comes after it; it returns [error]
    when an empty name comes before any such entry; when no entry looks like
    a version it returns the first entry, or [unknown] for an answer without
    entries.  So what it returns is an entry of the answer, [error] or
    [unknown]. *)
Theorem get_latest_version_first_match :
  ∀ names : list text,
    (∀ before name after,
       names = before ++ name :: after →
       (∀ b, b ∈ before → GetLatestVersion.version_like b = Some false) →
       GetLatestVersion.version_like name = Some true →
       GetLatestVersion.get_latest_version (Some names) = name)
    ∧ (∀ before after,
         names = before ++ [] :: after →
         (∀ b, b ∈ before → GetLatestVersion.version_like b = Some false) →
         GetLatestVersion.get_latest_version (Some names) = str "error")
    ∧ ((∀ n, n ∈ names → GetLatestVersion.version_like n = Some false) →
       GetLatestVersion.get_latest_version (Some names)
       = hd (str "unknown") names)
    ∧ (GetLatestVersion.get_latest_version (Some names) ∈ names
       ∨ GetLatestVersion.get_latest_version (Some names) = str "error"
       ∨ (names = []
          ∧ GetLatestVersion.get_latest_version (Some names) = str "unknown")).
Proof.
  intros names. unfold GetLatestVersion.get_latest_version.
  split; [|split; [|split]].
  - intros before name after Heq Hbefore Hname.
    assert (GetLatestVersion.scan_results names = GetLatestVersion.found name)
      as -> by (apply scan_results_found; eauto). done.
  - intros before after Heq Hbefore.
    assert (GetLatestVersion.scan_results names = GetLatestVersion.raised)
      as -> by (apply scan_results_raised; eauto). done.
  - intros Hall%scan_results_exhausted. rewrite Hall. by destruct names.
  - destruct (GetLatestVersion.scan_results names) as [name| |] eqn:Hscan.
    + left. apply scan_results_found in Hscan as (before & after & -> & _).
      apply elem_of_app. right. by left.
    + right. by left.
    + destruct names as [|n names]; [right; right; done|]. left. by left.
Qed.

(** X8, witness: the answer [latest], [1.2.0], [1.10.0], for which the older
    [1.2.0] is returned. *)
Lemma get_latest_version_first_match_witness :
  GetLatestVersion.get_latest_version
    (Some [str "latest"; str "1.2.0"; str "1.10.0"]) = str "1.2.0".
Proof.
  apply (proj1 (get_latest_version_first_match
                  [str "latest"; str "1.2.0"; str "1.10.0"])
           [str "latest"] (str "1.2.0") [str "1.10.0"]).
  - done.
  - by intros b ->%list_elem_of_singleton.
  - by vm_compute.
Defined.

(** ** The loop of the collector *)

Section Collector.
Context `{PackagingVersion}.
Variable fetch : CollectorMain.registry → option (list text).
Import CollectorMain.

Lemma split_first_absent n s :
  contains_char n s = false → GetLatestVersion.split_first n s = (s, None).
Proof.
  induction s as [|c s IH]; simpl; [done|].
  intros [Hc Hs]%orb_false_iff. rewrite Hc, (IH Hs). done.
Qed.

Lemma split_first_present n a b :
  n < 256 → contains_char n a = false →
  GetLatestVersion.split_first n (a ++ ascii_of_nat n :: b) = (a, Some b).
Proof.
  intros Hn. induction a as [|c a IH]; simpl.
  - intros _. unfold is_code, code. rewrite nat_ascii_embedding by done.
    by rewrite Nat.eqb_refl.
  - intros [Hc Ha]%orb_false_iff. rewrite Hc, (IH Ha). done.
Qed.

Lemma split_first_no_char n s :
  contains_char n (GetLatestVersion.split_first n s).1 = false.
Proof.
  induction s as [|c s IH]; simpl; [done|].
  destruct (is_code n c) eqn:Hc; [done|].
  destruct (GetLatestVersion.split_first n s) as [a b]. simpl in *.
  by rewrite Hc.
Qed.

Lemma visit_cases results failed image_ref :
  (∃ tags v,
     fetch (route (image_name_of image_ref)) = Some tags ∧ v ∈ tags ∧ v ≠ [] ∧
     visit fetch (results, failed) image_ref
     = (Dict.set image_ref v results, failed))
  ∨ visit fetch (results, failed) image_ref = (results, failed ++ [image_ref]).
Proof.
  unfold visit.
  destruct (route (image_name_of image_ref)) as [repo|repo|repo|] eqn:Hr;
    [| | |by right];
    (destruct (fetch _) as [tags|] eqn:Hf; [|by right];
     destruct (VersionNumberCollector.find_latest_version tags) as [[|c v]|]
       eqn:Hl; [by right| |by right];
     left; exists tags, (c :: v); split; [done|];
     by apply find_latest_member in Hl as [? ?]).
Qed.

Lemma scan_images_snoc images image_ref :
  scan_images fetch (images ++ [image_ref])
  = visit fetch (scan_images fetch images) image_ref.
Proof. unfold scan_images. by rewrite fold_left_app. Qed.

Lemma scan_images_accounts images :
  (∀ ref, ref ∈ images →
          ref ∈ Dict.keys (scan_images fetch images).1
          ∨ ref ∈ (scan_images fetch images).2)
  ∧ (∀ ref v, Dict.get ref (scan_images fetch images).1 = Some v →
              ref ∈ images ∧ v ≠ [] ∧
              ∃ tags, fetch (route (image_name_of ref)) = Some tags ∧ v ∈ tags)
  ∧ (∀ ref, ref ∈ (scan_images fetch images).2 → ref ∈ images).
Proof.
  induction images as [|image_ref images (IH1 & IH2 & IH3)] using rev_ind.
  - split; [by intros ref ?%elem_of_nil|]. split; [done|].
    by intros ref ?%elem_of_nil.
  - rewrite scan_images_snoc.
    destruct (scan_images fetch images) as [results failed].
    cbn [fst snd] in *.
    destruct (visit_cases results failed image_ref)
      as [(tags & v & Hf & Hv & Hne & ->)| ->]; cbn [fst snd].
    + split; [|split].
      * intros ref [Href| ->%list_elem_of_singleton]%elem_of_app.
        -- destruct (IH1 ref Href) as [?|?]; [left|by right].
           apply dict_keys_set. by right.
        -- left. apply dict_keys_set. by left.
      * intros ref v'. rewrite dict_get_set.
        destruct (decide (image_ref = ref)) as [<- |Hne'].
        -- intros [= <-]. split; [apply elem_of_app; right; by left|].
           split; [done|]. by exists tags.
        -- intros Hget. destruct (IH2 ref v' Hget) as (? & ? & ?).
           split; [apply elem_of_app; by left|]. done.
      * intros ref Href. apply elem_of_app. left. by apply IH3.
    + split; [|split].
      * intros ref [Href| ->%list_elem_of_singleton]%elem_of_app.
        -- destruct (IH1 ref Href) as [?|?]; [by left|right].
           apply elem_of_app. by left.
        -- right. apply elem_of_app. right. by left.
      * intros ref v' Hget. destruct (IH2 ref v' Hget) as (? & ? & ?).
        split; [apply elem_of_app; by left|]. done.
      * intros ref [Href| ->%list_elem_of_singleton]%elem_of_app.
        -- apply elem_of_app. left. by apply IH3.
        -- apply elem_of_app. right. by left.
Qed.

End Collector.

(** X9.  The collector reads the image name up to the first colon of the
    reference, so the name holds no colon and the tag plays no part in the
    choice of the registry.  A reference whose first colon follows a host
    name without a slash, as in [registry:5000/app], is therefore looked up
    on Docker Hub under [library/] and that host name. *)
Theorem collector_routes_by_first_colon :
  (∀ image_ref : text,
     contains_char 58 (CollectorMain.image_name_of image_ref) = false)
  ∧ (∀ name rest : text,
       contains_char 58 name = false →
       CollectorMain.image_name_of (name ++ str ":" ++ rest) = name
       ∧ CollectorMain.image_name_of name = name)
  ∧ (∀ host rest : text,
       contains_char 58 host = false → contains_char 47 host = false →
       CollectorMain.route (CollectorMain.image_name_of (host ++ str ":" ++ rest))
       = CollectorMain.docker_hub (str "library/" ++ host)).
Proof.
  assert (∀ name rest : text,
            contains_char 58 name = false →
            CollectorMain.image_name_of (name ++ str ":" ++ rest) = name)
    as Hname.
  { intros name rest Hc. unfold CollectorMain.image_name_of.
    change (name ++ str ":" ++ rest) with (name ++ ascii_of_nat 58 :: rest).
    by rewrite (split_first_present 58 name rest) by (lia || done). }
  split; [intros ref; apply split_first_no_char|]. split.
  - intros name rest Hc. split; [by apply Hname|].
    unfold CollectorMain.image_name_of. by rewrite split_first_absent.
  - intros host rest Hc Hs. rewrite Hname by done.
    unfold CollectorMain.route. by rewrite Hs.
Qed.

(** X9, witness: the reference [registry:5000/app]. *)
Lemma collector_routes_by_first_colon_witness :
  CollectorMain.route (CollectorMain.image_name_of (str "registry:5000/app"))
  = CollectorMain.docker_hub (str "library/registry").
Proof.
  apply (proj2 (proj2 collector_routes_by_first_colon)
           (str "registry") (str "5000/app")); by vm_compute.
Defined.

(** X10.  The loop of the collector accounts for every image reference: it
    is a key of the successful images or an entry of the failed ones.  A
    version recorded as successful belongs to a reference of the list, is not
    empty, and is one of the tags that the registry chosen for the reference
    answered with; and every failed entry is a reference of the list. *)
Theorem collector_accounts_for_images :
  ∀ (P : PackagingVersion) (fetch : CollectorMain.registry → option (list text))
    (images : list text),
    (∀ ref, ref ∈ images →
            ref ∈ Dict.keys (CollectorMain.scan_images fetch images).1
            ∨ ref ∈ (CollectorMain.scan_images fetch images).2)
    ∧ (∀ ref v,
         Dict.get ref (CollectorMain.scan_images fetch images).1 = Some v →
         ref ∈ images ∧ v ≠ [] ∧
         ∃ tags,
           fetch (CollectorMain.route (CollectorMain.image_name_of ref))
           = Some tags ∧ v ∈ tags)
    ∧ (∀ ref, ref ∈ (CollectorMain.scan_images fetch images).2 → ref ∈ images).
Proof. intros P fetch images. apply scan_images_accounts. Qed.

(** X10, witness: two references, of which the registry answers for the
    first only. *)
Lemma collector_accounts_for_images_witness :
  str "qdrant/qdrant" ∈
    Dict.keys
      (@CollectorMain.scan_images Release.packaging
         (λ r, match r with
               | CollectorMain.docker_hub _ => Some [str "v1.9.0"; str "latest"]
               | _ => None
               end)
         [str "qdrant/qdrant"; str "ghcr.io/berriai/litellm:main-latest"]).1
  ∨ str "qdrant/qdrant" ∈
      (@CollectorMain.scan_images Release.packaging
         (λ r, match r with
               | CollectorMain.docker_hub _ => Some [str "v1.9.0"; str "latest"]
               | _ => None
               end)
         [str "qdrant/qdrant"; str "ghcr.io/berriai/litellm:main-latest"]).2.
Proof.
  apply (proj1 (collector_accounts_for_images Release.packaging _ _)).
  by left.
Defined.

(** ** What the line-oriented rewriters record *)

Section AddCommentsMore.
Import AddVersionComments.
Implicit Types (cv : gmap text (option text)) (st : state) (line : text).

Lemma add_comments_step_cases cv st line :
  ((step cv st line).1.2 = [line] ∧ (step cv st line).2 = [])
  ∨ ∃ indent image v,
      image_pattern line = Some (indent, image) ∧
      cv !! Image.container image = Some (Some v) ∧
      v ≠ str "unknown" ∧ v ≠ str "latest" ∧
      (step cv st line).1.2
      = [indent ++ str "# Version: " ++ v ++ [LF]; line] ∧
      (step cv st line).2
      = [{| service := str "image"; image := image; version := v |}].
Proof.
  unfold step.
  destruct (image_pattern line) as [[indent image]|] eqn:Himg; [|by left].
  rewrite (add_comments_image_is_service _ _ _ Himg). cbn [current_service].
  change (truthy (Some (str "image"))) with true. cbv iota.
  destruct (cv !! Image.container image) as [[v|]|] eqn:Hv;
    cbv [default id unusable]; cbv beta iota;
    [|left; split; reflexivity..].
  destruct (text_eqb v (str "unknown")) eqn:Hu; [left; split; reflexivity|].
  destruct (text_eqb v (str "latest")) eqn:Hl; [left; split; reflexivity|].
  right. exists indent, image, v.
  apply text_eqb_neq in Hu, Hl. done.
Qed.

Lemma add_comments_run_cons cv st line lines :
  run cv st (line :: lines)
  = ((step cv st line).1.2 ++ (run cv (step cv st line).1.1 lines).1,
     (step cv st line).2 ++ (run cv (step cv st line).1.1 lines).2).
Proof.
  cbn [run]. destruct (step cv st line) as [[st' out] chg].
  cbn [fst snd]. by destruct (run cv st' lines).
Qed.

Lemma add_comments_run_length cv st lines :
  length (run cv st lines).1 = length lines + length (run cv st lines).2.
Proof.
  revert st. induction lines as [|line lines IH]; intros st; [done|].
  rewrite add_comments_run_cons. cbn [fst snd]. rewrite !length_app, IH.
  destruct (add_comments_step_cases cv st line)
    as [[-> ->]|(i & im & v & _ & _ & _ & _ & -> & ->)]; simpl; lia.
Qed.


End AddCommentsMore.

(** X11.  [add_version_comments] inserts exactly one line for every record
    it returns: the output has as many lines as the input and the records
    together. *)
Theorem add_version_comments_line_count :
  ∀ (lines : list text) (cv : gmap text (option text)),
    length (AddVersionComments.add_version_comments lines cv).1
    = length lines
      + length (AddVersionComments.add_version_comments lines cv).2.
Proof. intros lines cv. apply add_comments_run_length. Qed.



Section ComposeMore.
Import VersionDockerCompose.
Implicit Types (cv : gmap text (option text)) (cs : option text) (line : text).

Lemma step_dropped se cv cs line ut :
  version_comment_pattern line = true → se = true →
  (step ut se cv cs line).1.2 = [] ∧ (step ut se cv cs line).2 = [].
Proof. intros Hvc ->. unfold step. by rewrite Hvc. Qed.

(** A line that is written back, alone or after a comment, was not removed
    as an existing comment. *)
Lemma step_kept ut se cv cs line :
  (step ut se cv cs line).1.2 ≠ [] →
  version_comment_pattern line && se = false.
Proof.
  intros Hout. destruct (version_comment_pattern line) eqn:Hvc; [|done].
  destruct se; [|done]. by destruct (step_dropped true cv cs line ut).
Qed.

Lemma comment_made line prefix image version :
  image_pattern line = Some (prefix, image) →
  version_comment_pattern
    (repeat " "%char (length prefix - length (str "image: "))
     ++ str "# Version: " ++ version) = true.
Proof.
  intros Himg. apply version_comment_made. by eapply indent_prefix_length.
Qed.

Lemma image_not_version_comment line prefix image :
  image_pattern line = Some (prefix, image) →
  version_comment_pattern line = false.
Proof.
  intros Himg. destruct (version_comment_pattern line) eqn:Hvc; [|done].
  apply version_comment_not_image in Hvc. congruence.
Qed.

Lemma run_length ut se cv cs lines :
  length (run ut se cv cs lines).1
  + (if se then length (filter (λ l, version_comment_pattern l = true) lines)
     else 0)
  = length lines + length (run ut se cv cs lines).2.
Proof.
  revert cs. induction lines as [|line lines IH]; intros cs.
  - simpl. by destruct se.
  - rewrite run_cons. cbn [fst snd]. rewrite !length_app.
    specialize (IH (step ut se cv cs line).1.1). rewrite filter_cons.
    destruct (step_cases ut se cv cs line)
      as [[Hout Hchg]|[(-> & Hvc & Hout & Hchg)
         |[(p & i & v & Himg & _ & Hout & Hchg)
          |(p & i & v & _ & Himg & _ & _ & Hout & Hchg)]]].
    + assert (version_comment_pattern line && se = false) as Hkept.
      { apply step_kept with ut cv cs. by rewrite Hout. }
      rewrite Hout, Hchg. destruct se.
      * rewrite andb_true_r in Hkept. rewrite decide_False by congruence.
        simpl. lia.
      * simpl. lia.
    + rewrite Hout, Hchg, decide_True by done. simpl. simpl in IH. lia.
    + rewrite Hout, Hchg. destruct se.
      * rewrite decide_False
          by (rewrite (image_not_version_comment _ _ _ Himg); done).
        simpl. lia.
      * simpl. lia.
    + rewrite Hout, Hchg. destruct se.
      * rewrite decide_False
          by (rewrite (image_not_version_comment _ _ _ Himg); done).
        simpl. lia.
      * simpl. lia.
Qed.

(** In annotate mode the lines that are not version comments pass through
    unchanged, and every record is a [comment_added] one. *)
Lemma run_annotate_frame se cv cs lines :
  filter (λ l, version_comment_pattern l = false) (run false se cv cs lines).1
  = filter (λ l, version_comment_pattern l = false) lines
  ∧ ∀ c, c ∈ (run false se cv cs lines).2 → is_tag_updated c = false.
Proof.
  revert cs. induction lines as [|line lines IH]; intros cs.
  - split; [done|]. by intros c ?%elem_of_nil.
  - rewrite run_cons. cbn [fst snd].
    destruct (IH (step false se cv cs line).1.1) as [IHl IHc].
    rewrite filter_app, IHl, filter_cons.
    destruct (step_cases false se cv cs line)
      as [[Hout Hchg]|[(-> & Hvc & Hout & Hchg)
         |[(p & i & v & Himg & _ & Hout & Hchg)|(p & i & v & Hut & _)]]];
      [| | |done]; rewrite Hout, Hchg.
    + split.
      * rewrite filter_cons, filter_nil.
        by destruct (decide (version_comment_pattern line = false)).
      * intros c Hc. by apply IHc.
    + split.
      * destruct (decide (version_comment_pattern line = false));
          [congruence|done].
      * intros c Hc. by apply IHc.
    + split.
      * rewrite !filter_cons, filter_nil.
        pose proof (comment_made _ _ _ v Himg) as Hmade.
        pose proof (image_not_version_comment _ _ _ Himg) as Hline.
        destruct (decide (version_comment_pattern line = false));
          [|congruence].
        destruct (decide (version_comment_pattern _ = false));
          [congruence|done].
      * intros c [->%list_elem_of_singleton|Hc]%elem_of_app; [done|].
        by apply IHc.
Qed.

Lemma image_prefix_shape line prefix image :
  image_pattern line = Some (prefix, image) →
  ∃ ws1 ws2,
    prefix = ws1 ++ str "image:" ++ ws2 ∧
    ws1 ≠ [] ∧ forallb is_space ws1 = true ∧
    ws2 ≠ [] ∧ forallb is_space ws2 = true ∧
    image ≠ [] ∧ forallb is_dot image = true.
Proof.
  unfold image_pattern.
  destruct (Re.plus is_space _ line) as [[ws1 [ws2 [img u]]]|] eqn:Hm; [|done].
  intros [= <- <-].
  apply image_line_shape in Hm as (tail & _ & ? & ? & ? & ? & ? & ? & _).
  by exists ws1, ws2.
Qed.

(** The image line written for a replaced tag is read back by the image
    pattern as the new image. *)
Lemma image_pattern_made line prefix image new_image :
  image_pattern line = Some (prefix, image) →
  forallb is_dot new_image = true →
  match new_image with c :: _ => is_space c = false | [] => False end →
  image_pattern (prefix ++ new_image) = Some (prefix, new_image).
Proof.
  intros (ws1 & ws2 & -> & Hne1 & Hws1 & Hne2 & Hws2 & _)%image_prefix_shape
         Hdot Hfirst.
  assert (Re.plus is_dot Re.eol new_image = Some (new_image, tt)) as H1.
  { rewrite <- (app_nil_r new_image) at 1.
    apply re_plus_exact; [by destruct new_image|done|done|done]. }
  assert (Re.plus is_space (Re.plus is_dot Re.eol) (ws2 ++ new_image)
          = Some (ws2, (new_image, tt))) as H2.
  { apply re_plus_exact; [done|done|by destruct new_image|done]. }
  assert (Re.plus is_space
            (Re.lit (str "image:") (Re.plus is_space (Re.plus is_dot Re.eol)))
            (ws1 ++ str "image:" ++ ws2 ++ new_image)
          = Some (ws1, (ws2, (new_image, tt)))) as H3.
  { apply re_plus_exact; [done|done|by vm_compute|]. by rewrite re_lit_app. }
  unfold image_pattern. rewrite <- !app_assoc. by rewrite H3.
Qed.

Lemma split_container_dot image :
  forallb is_dot image = true → forallb is_dot (Image.split image).1 = true.
Proof.
  intros Hdot.
  destruct (image_split_cases image)
    as [(r & t & Heq & _ & -> & _)|(_ & -> & _)]; [|done].
  rewrite Heq in Hdot. rewrite forallb_app in Hdot.
  by apply andb_true_iff in Hdot as [? _].
Qed.

Lemma split_container_first image :
  match image with c :: _ => is_space c = false | [] => False end →
  match (Image.split image).1 ++ str ":" with
  | c :: _ => is_space c = false
  | [] => False
  end.
Proof.
  intros Hfirst.
  destruct (image_split_cases image)
    as [(r & t & Heq & _ & -> & _)|(_ & -> & _)]; cbn [fst].
  - destruct r as [|c r]; [by vm_compute|]. by rewrite Heq in Hfirst.
  - by destruct image.
Qed.

Lemma usable_version_lookup cv container version :
  usable_version cv container = Some version →
  cv !! container = Some (Some version) ∧
  version ≠ str "unknown" ∧ version ≠ str "UNKNOWN".
Proof.
  unfold usable_version. destruct (cv !! container) as [[v|]|]; [|done..].
  destruct (text_eqb v (str "unknown")) eqn:Hu; [done|].
  destruct (text_eqb v (str "UNKNOWN")) eqn:Hl; [done|].
  intros [= ->]. by apply text_eqb_neq in Hu, Hl.
Qed.

(** What a record of a run stands for. *)
Lemma run_records ut se cv cs lines c :
  c ∈ (run ut se cv cs lines).2 →
  Records.service_of c = str "image" ∧
  cv !! (Image.split (old_image_of c)).1 = Some (Some (Records.version_of c)) ∧
  Records.version_of c ≠ str "unknown" ∧
  Records.version_of c ≠ str "UNKNOWN" ∧
  (∃ prefix line, line ∈ lines ∧ image_pattern line = Some (prefix, old_image_of c)) ∧
  ∀ new_image,
    Records.new_image_of c = Some new_image →
    ut = true ∧
    ((Image.split (old_image_of c)).2 = str "latest"
     ∨ (Image.split (old_image_of c)).1 = old_image_of c) ∧
    new_image
    = (Image.split (old_image_of c)).1 ++ str ":" ++ Records.version_of c ∧
    ∃ prefix line,
      line ∈ lines ∧ image_pattern line = Some (prefix, old_image_of c) ∧
      prefix ++ new_image ∈ (run ut se cv cs lines).1.
Proof.
  revert cs. induction lines as [|line lines IH]; intros cs.
  - by intros ?%elem_of_nil.
  - rewrite run_cons. cbn [fst snd]. intros [Hc|Hc]%elem_of_app.
    + destruct (step_cases ut se cv cs line)
        as [[_ Hchg]|[(_ & _ & _ & Hchg)
           |[(p & i & v & Himg & Hv & Hout & Hchg)
            |(p & i & v & Hut & Himg & Hor & Hv & Hout & Hchg)]]];
        rewrite Hchg in Hc;
        try (by apply elem_of_nil in Hc);
        apply list_elem_of_singleton in Hc as ->;
        apply usable_version_lookup in Hv as (Hv & Hu & Hl); cbn.
      * do 4 (split; [done|]). split; [exists p, line; split; [by left|done]|].
        by intros new [=].
      * do 4 (split; [done|]). split; [exists p, line; split; [by left|done]|].
        intros new [= <-]. do 3 (split; [done|]).
        exists p, line. split; [by left|]. split; [done|].
        rewrite Hout. apply elem_of_app. left. right. by left.
    + destruct (IH _ Hc) as (Hs & Hv & Hu & Hl & (p & l & Hin & Himg) & Hnew).
      do 4 (split; [done|]). split; [exists p, l; split; [by right|done]|].
      intros new Hn.
      destruct (Hnew new Hn) as (? & ? & ? & p' & l' & ? & ? & ?).
      do 3 (split; [done|]).
      exists p', l'. split; [by right|]. split; [done|].
      apply elem_of_app. by right.
Qed.

End ComposeMore.

(** X13.  [version_docker_compose.py] inserts exactly one comment line for
    every record it returns, in annotate mode and in replace mode alike, and
    removes the version comment lines of the input when existing comments are
    skipped: the output lines, with the removed ones, are as many as the
    input lines and the records together. *)
Theorem rewrite_lines_line_count :
  ∀ (update_tags skip_existing : bool) (cv : gmap text (option text))
    (lines : list text),
    length (VersionDockerCompose.rewrite_lines update_tags skip_existing cv
              lines).1
    + (if skip_existing
       then length (filter
                      (λ l, VersionDockerCompose.version_comment_pattern l = true)
                      lines)
       else 0)
    = length lines
      + length (VersionDockerCompose.rewrite_lines update_tags skip_existing cv
                  lines).2.
Proof. intros ut se cv lines. apply run_length. Qed.

(** X14.  In annotate mode with existing comments skipped,
    [version_docker_compose.py] run on the lines it has written returns the
    same lines and the same records again. *)
Theorem rewrite_lines_annotate_twice :
  ∀ (cv : gmap text (option text)) (lines : list text),
    VersionDockerCompose.rewrite_lines false true cv
      (VersionDockerCompose.rewrite_lines false true cv lines).1
    = VersionDockerCompose.rewrite_lines false true cv lines.
Proof. intros cv lines. apply run_annotate_idempotent. Qed.

(** X15.  In annotate mode [version_docker_compose.py] touches version
    comment lines only: the lines of the output that are not version comments
    are the lines of the input that are not version comments, in the same
    order, and no record is a [tag_updated] one. *)
Theorem rewrite_lines_annotate_frame :
  ∀ (skip_existing : bool) (cv : gmap text (option text)) (lines : list text),
    filter (λ l, VersionDockerCompose.version_comment_pattern l = false)
      (VersionDockerCompose.rewrite_lines false skip_existing cv lines).1
    = filter (λ l, VersionDockerCompose.version_comment_pattern l = false) lines
    ∧ ∀ c, c ∈ (VersionDockerCompose.rewrite_lines false skip_existing cv
                  lines).2 →
           VersionDockerCompose.is_tag_updated c = false.
Proof. intros se cv lines. apply run_annotate_frame. Qed.

(** X16.  Every record of [version_docker_compose.py] names the service
    [image], whatever the service is called; it holds the image of an image
    line of the input and the version stored for the repository of that
    image, which is neither [unknown] nor [UNKNOWN].  A [tag_updated] record
    is made only when tags are updated and the image has no tag or the tag
    [latest], and its new image is the repository, a colon and that
    version. *)
Theorem rewrite_lines_records :
  ∀ (update_tags skip_existing : bool) (cv : gmap text (option text))
    (lines : list text) (c : VersionDockerCompose.change),
    c ∈ (VersionDockerCompose.rewrite_lines update_tags skip_existing cv
           lines).2 →
    Records.service_of c = str "image" ∧
    cv !! (Image.split (VersionDockerCompose.old_image_of c)).1
    = Some (Some (Records.version_of c)) ∧
    Records.version_of c ≠ str "unknown" ∧
    Records.version_of c ≠ str "UNKNOWN" ∧
    (∃ prefix line,
       line ∈ lines ∧
       VersionDockerCompose.image_pattern line
       = Some (prefix, VersionDockerCompose.old_image_of c)) ∧
    ∀ new_image,
      Records.new_image_of c = Some new_image →
      update_tags = true ∧
      ((Image.split (VersionDockerCompose.old_image_of c)).2 = str "latest"
       ∨ (Image.split (VersionDockerCompose.old_image_of c)).1
         = VersionDockerCompose.old_image_of c) ∧
      new_image
      = (Image.split (VersionDockerCompose.old_image_of c)).1 ++ str ":"
        ++ Records.version_of c.
Proof.
  intros ut se cv lines c Hc.
  destruct (run_records ut se cv None lines c Hc)
    as (Hs & Hv & Hu & Hl & Hline & Hnew).
  do 5 (split; [done|]). intros new Hn.
  destruct (Hnew new Hn) as (? & ? & ? & _). done.
Qed.

(** X16, witness: the service [cache] with the image
    [qdrant/qdrant:latest], in replace mode. *)
Lemma rewrite_lines_records_witness :
  Records.service_of
    (VersionDockerCompose.tag_updated (str "image")
       (str "qdrant/qdrant:latest") (str "qdrant/qdrant:v1.9.0")
       (str "v1.9.0")) = str "image".
Proof.
  apply (rewrite_lines_records true true Examples.qdrant_versions
           Examples.qdrant_plain_rows).
  vm_compute. by left.
Defined.

(** X17.  In replace mode the new image of every [tag_updated] record of
    [version_docker_compose.py] is what the image pattern reads back from a
    line of the output, after the same [image:] prefix as on the line that
    held the old image; this for versions without a line feed and an old
    image that does not start with white space. *)
Theorem rewrite_lines_new_image_read_back :
  ∀ (skip_existing : bool) (cv : gmap text (option text)) (lines : list text)
    (c : VersionDockerCompose.change) (new_image : text),
    (∀ k v, cv !! k = Some (Some v) → forallb is_dot v = true) →
    c ∈ (VersionDockerCompose.rewrite_lines true skip_existing cv lines).2 →
    Records.new_image_of c = Some new_image →
    match VersionDockerCompose.old_image_of c with
    | ch :: _ => is_space ch = false
    | [] => False
    end →
    ∃ prefix line,
      line ∈ lines ∧
      VersionDockerCompose.image_pattern line
      = Some (prefix, VersionDockerCompose.old_image_of c) ∧
      prefix ++ new_image
      ∈ (VersionDockerCompose.rewrite_lines true skip_existing cv lines).1 ∧
      VersionDockerCompose.image_pattern (prefix ++ new_image)
      = Some (prefix, new_image).
Proof.
  intros se cv lines c new Hdot Hc Hn Hfirst.
  destruct (run_records true se cv None lines c Hc)
    as (_ & Hv & _ & _ & _ & Hnew).
  destruct (Hnew new Hn) as (_ & _ & -> & prefix & line & Hin & Himg & Hout).
  exists prefix, line. do 3 (split; [done|]).
  apply (image_pattern_made line prefix (VersionDockerCompose.old_image_of c));
    [done| |].
  - apply image_prefix_shape in Himg as (_ & _ & _ & _ & _ & _ & _ & _ & Hi).
    rewrite !forallb_app. rewrite (split_container_dot _ Hi).
    by rewrite (Hdot _ _ Hv).
  - apply split_container_first in Hfirst.
    by destruct ((Image.split (VersionDockerCompose.old_image_of c)).1).
Qed.

(** X17, witness: [qdrant/qdrant:latest] replaced by
    [qdrant/qdrant:v1.9.0]. *)
Lemma rewrite_lines_new_image_read_back_witness :
  ∃ prefix line,
    line ∈ Examples.qdrant_plain_rows ∧
    VersionDockerCompose.image_pattern line
    = Some (prefix, str "qdrant/qdrant:latest") ∧
    prefix ++ str "qdrant/qdrant:v1.9.0"
    ∈ (VersionDockerCompose.rewrite_lines true true Examples.qdrant_versions
         Examples.qdrant_plain_rows).1 ∧
    VersionDockerCompose.image_pattern (prefix ++ str "qdrant/qdrant:v1.9.0")
    = Some (prefix, str "qdrant/qdrant:v1.9.0").
Proof.
  apply (rewrite_lines_new_image_read_back true Examples.qdrant_versions
           Examples.qdrant_plain_rows
           (VersionDockerCompose.tag_updated (str "image")
              (str "qdrant/qdrant:latest") (str "qdrant/qdrant:v1.9.0")
              (str "v1.9.0"))).
  - intros k v Hkv. unfold Examples.qdrant_versions in Hkv.
    apply lookup_singleton_Some in Hkv as [_ [= <-]]. by vm_compute.
  - vm_compute. by left.
  - done.
  - by vm_compute.
Defined.

Section UpdateMore.
Import UpdateComposeVersions.

Lemma usable_version_some cv container v :
  usable_version cv container = Some v ↔
  cv !! container = Some (Some v) ∧ v ≠ str "latest" ∧ v ≠ str "UNKNOWN".
Proof.
  unfold usable_version.
  destruct (cv !! container) as [[w|]|].
  2,3: split; [done|by intros [? _]].
  destruct (text_eqb w (str "latest")) eqn:H1; cbn [orb].
  { apply text_eqb_eq in H1. split; [done|]. intros ([= ->] & ? & _). done. }
  destruct (text_eqb w (str "UNKNOWN")) eqn:H2.
  { apply text_eqb_eq in H2. split; [done|]. intros ([= ->] & _ & ?). done. }
  apply text_eqb_neq in H1, H2. split.
  - by intros [= <-].
  - by intros ([= ->] & _).
Qed.

(** Whether [re.sub] accepts the template depends on the new image only. *)
Lemma sub_image_is_some image new_image content :
  is_Some (sub_image image new_image content)
  ↔ template_is_literal new_image = true.
Proof.
  unfold sub_image. destruct (template_is_literal new_image).
  - split; [done|]. by eexists.
  - split; [by intros [? ?]|done].
Qed.

(** The records a service adds do not depend on the document. *)
Lemma update_service_records cv name image c1 c2 changes :
  option_map snd (update_service cv name image (c1, changes))
  = option_map snd (update_service cv name image (c2, changes)).
Proof.
  unfold update_service, sub_image.
  destruct (contains_char 58 image).
  - destruct (rsplit_colon image) as [[container tag]|]; [|done].
    destruct (usable_version cv container) as [version|]; [|done].
    destruct (unhelpful tag); [done|].
    destruct (specific_enough tag); [done|].
    by destruct (template_is_literal _).
  - destruct (usable_version cv image) as [version|]; [|done].
    by destruct (template_is_literal _).
Qed.

Lemma update_services_records cv services c1 c2 changes :
  option_map snd (update_services cv services (c1, changes))
  = option_map snd (update_services cv services (c2, changes)).
Proof.
  revert c1 c2 changes.
  induction services as [|[name [image|]] services IH]; intros c1 c2 changes.
  - done.
  - cbn [update_services].
    pose proof (update_service_records cv name image c1 c2 changes) as Hstep.
    destruct (update_service cv name image (c1, changes)) as [[d1 ch1]|];
      destruct (update_service cv name image (c2, changes)) as [[d2 ch2]|];
      simpl in Hstep; try done.
    injection Hstep as ->. apply IH.
  - cbn [update_services]. apply IH.
Qed.

(** What a service that adds a record looks like. *)
Lemma update_service_record cv name image content changes content' changes' :
  update_service cv name image (content, changes) = Some (content', changes') →
  (content' = content ∧ changes' = changes)
  ∨ ∃ version,
      cv !! Image.container image = Some (Some version) ∧
      version ≠ str "latest" ∧ version ≠ str "UNKNOWN" ∧
      unhelpful (Image.split image).2 = false ∧
      template_is_literal (Image.container image ++ str ":" ++ version) = true ∧
      changes' = changes ++ [{| service := name; old_image := image;
                                new_image := Image.container image
                                             ++ str ":" ++ version |}].
Proof.
  unfold update_service, Image.split, Image.container.
  destruct (contains_char 58 image) eqn:Hcolon.
  - destruct (rsplit_colon image) as [[container tag]|] eqn:Hsplit.
    2:{ intros [= <- <-]. by left. }
    destruct (usable_version cv container) as [version|] eqn:Hv.
    2:{ intros [= <- <-]. by left. }
    destruct (unhelpful tag) eqn:Hun. { intros [= <- <-]. by left. }
    destruct (specific_enough tag) eqn:Hspec. { intros [= <- <-]. by left. }
    destruct (sub_image _ _ content) as [c'|] eqn:Hsub; [|done].
    intros [= <- <-]. right. exists version.
    apply usable_version_some in Hv as (? & ? & ?).
    do 4 (split; [done|]). split; [|done].
    apply (sub_image_is_some image _ content). by eexists.
  - destruct (usable_version cv image) as [version|] eqn:Hv.
    2:{ intros [= <- <-]. by left. }
    destruct (sub_image _ _ content) as [c'|] eqn:Hsub; [|done].
    intros [= <- <-]. right. exists version.
    apply usable_version_some in Hv as (? & ? & ?).
    do 4 (split; [done|]). split; [|done].
    apply (sub_image_is_some image _ content). by eexists.
Qed.

Lemma update_services_records_spec cv services content changes content'
    changes' :
  update_services cv services (content, changes) = Some (content', changes') →
  ∃ added,
    changes' = changes ++ added ∧
    sublist (map (λ r, (service r, Some (old_image r))) added) services ∧
    ∀ r, r ∈ added →
      ∃ version,
        cv !! Image.container (old_image r) = Some (Some version) ∧
        version ≠ str "latest" ∧ version ≠ str "UNKNOWN" ∧
        unhelpful (Image.split (old_image r)).2 = false ∧
        new_image r = Image.container (old_image r) ++ str ":" ++ version.
Proof.
  revert content changes.
  induction services as [|[name [image|]] services IH]; intros content changes.
  - intros [= <- <-]. exists []. rewrite app_nil_r.
    split; [done|]. split; [constructor|]. by intros r ?%elem_of_nil.
  - cbn [update_services].
    destruct (update_service cv name image (content, changes))
      as [[content1 changes1]|] eqn:Hstep; [|done].
    intros Hrest. apply IH in Hrest as (added & -> & Hsub & Hrec).
    apply update_service_record in Hstep
      as [[-> ->]|(version & Hv & H1 & H2 & Hun & _ & ->)].
    + exists added. split; [done|]. split; [by apply sublist_cons|done].
    + eexists (_ :: added). rewrite <- app_assoc. split; [done|]. split.
      * cbn [map service old_image]. by apply sublist_skip.
      * intros r [-> |Hr]%elem_of_cons; [|by apply Hrec].
        exists version. by cbn [old_image new_image].
  - cbn [update_services]. intros Hrest.
    apply IH in Hrest as (added & -> & Hsub & Hrec).
    exists added. split; [done|]. split; [by apply sublist_cons|done].
Qed.

(** The template made from an image without a backslash that does not start
    with a digit, and a version without a backslash, is literal. *)
Lemma template_of_image_literal image version :
  contains_char 92 image = false →
  match image with c :: _ => is_decimal c = false | [] => True end →
  contains_char 92 version = false →
  template_is_literal (Image.container image ++ str ":" ++ version) = true.
Proof.
  intros Hb Hd Hv. unfold Image.container.
  assert (∀ container,
            contains_char 92 container = false →
            match container with c :: _ => is_decimal c = false | [] => True end →
            template_is_literal (container ++ str ":" ++ version) = true)
    as Hmake.
  { intros container Hcb Hcd. unfold template_is_literal, contains_char in *.
    rewrite !existsb_app, Hcb, Hv.
    destruct container as [|c container]; [done|].
    cbn [app]. by rewrite Hcd. }
  destruct (contains_char 58 image); [|by apply Hmake].
  destruct (rsplit_colon image) as [[container tag]|] eqn:Hsplit;
    [|by apply Hmake].
  apply rsplit_colon_some in Hsplit as [-> _]. apply Hmake.
  - unfold contains_char in *. rewrite existsb_app in Hb.
    by apply orb_false_iff in Hb as [? _].
  - by destruct container.
Qed.

Lemma update_service_returns cv name image acc :
  contains_char 92 image = false →
  match image with c :: _ => is_decimal c = false | [] => True end →
  (∀ k v, cv !! k = Some (Some v) → contains_char 92 v = false) →
  is_Some (update_service cv name image acc).
Proof.
  intros Hb Hd Hcv. destruct acc as [content changes].
  pose proof (template_of_image_literal image) as Hlit.
  unfold update_service, Image.container in *.
  destruct (contains_char 58 image).
  - destruct (rsplit_colon image) as [[container tag]|]; [|by eexists].
    destruct (usable_version cv container) as [version|] eqn:Hv; [|by eexists].
    destruct (unhelpful tag); [by eexists|].
    destruct (specific_enough tag); [by eexists|].
    apply usable_version_some in Hv as (Hv & _ & _).
    unfold sub_image. rewrite (Hlit version Hb Hd (Hcv _ _ Hv)). by eexists.
  - destruct (usable_version cv image) as [version|] eqn:Hv; [|by eexists].
    apply usable_version_some in Hv as (Hv & _ & _).
    unfold sub_image. rewrite (Hlit version Hb Hd (Hcv _ _ Hv)). by eexists.
Qed.

Lemma update_services_returns cv services acc :
  (∀ name image, (name, Some image) ∈ services →
     contains_char 92 image = false ∧
     match image with c :: _ => is_decimal c = false | [] => True end) →
  (∀ k v, cv !! k = Some (Some v) → contains_char 92 v = false) →
  is_Some (update_services cv services acc).
Proof.
  intros Himg Hcv. revert acc.
  induction services as [|[name [image|]] services IH]; intros acc.
  - by eexists.
  - cbn [update_services].
    destruct (Himg name image) as [Hb Hd]; [by left|].
    destruct (update_service_returns cv name image acc Hb Hd Hcv) as [acc' ->].
    apply IH. intros n i Hin. apply (Himg n i). by right.
  - cbn [update_services]. apply IH. intros n i Hin. apply (Himg n i). by right.
Qed.

Lemma update_service_no_version cv name image acc :
  (∀ v, cv !! Image.container image = Some (Some v) →
        v = str "latest" ∨ v = str "UNKNOWN") →
  update_service cv name image acc = Some acc.
Proof.
  intros Hno. destruct acc as [content changes].
  unfold update_service, Image.container in *.
  destruct (contains_char 58 image).
  - destruct (rsplit_colon image) as [[container tag]|]; [|done].
    destruct (usable_version cv container) as [version|] eqn:Hv; [|done].
    apply usable_version_some in Hv as (Hv & H1 & H2).
    by destruct (Hno _ Hv).
  - destruct (usable_version cv image) as [version|] eqn:Hv; [|done].
    apply usable_version_some in Hv as (Hv & H1 & H2).
    by destruct (Hno _ Hv).
Qed.

End UpdateMore.

(** X18.  The records [update_versions] returns do not depend on the text of
    the document: they are made from the parsed services and the stored
    versions alone, so a record says that a service qualified, not that its
    image line was found and rewritten. *)
Theorem update_versions_records_ignore_text :
  ∀ (content1 content2 : text) (services : list (text * option text))
    (cv : gmap text (option text)),
    option_map snd (UpdateComposeVersions.update_versions content1 services cv)
    = option_map snd
        (UpdateComposeVersions.update_versions content2 services cv).
Proof.
  intros c1 c2 services cv. apply update_services_records.
Qed.

(** X19.  The records of [update_versions] follow the order of the services:
    they are, as pairs of service name and old image, a subsequence of the
    services with an image.  The new image of a record is the repository of
    the old image, a colon and the version stored for that repository, which
    is neither [latest] nor [UNKNOWN]; the old tag is none of [alpine],
    [latest-full] and [latest-cuda]. *)
Theorem update_versions_records :
  ∀ (content : text) (services : list (text * option text))
    (cv : gmap text (option text)) (content' : text)
    (changes : list UpdateComposeVersions.change),
    UpdateComposeVersions.update_versions content services cv
    = Some (content', changes) →
    sublist
      (map (λ r, (UpdateComposeVersions.service r,
                  Some (UpdateComposeVersions.old_image r))) changes)
      services ∧
    ∀ r, r ∈ changes →
      ∃ version,
        cv !! Image.container (UpdateComposeVersions.old_image r)
        = Some (Some version) ∧
        version ≠ str "latest" ∧ version ≠ str "UNKNOWN" ∧
        (Image.split (UpdateComposeVersions.old_image r)).2 ≠ str "alpine" ∧
        (Image.split (UpdateComposeVersions.old_image r)).2
        ≠ str "latest-full" ∧
        (Image.split (UpdateComposeVersions.old_image r)).2
        ≠ str "latest-cuda" ∧
        UpdateComposeVersions.new_image r
        = Image.container (UpdateComposeVersions.old_image r) ++ str ":"
          ++ version.
Proof.
  intros content services cv content' changes Hrun.
  apply update_services_records_spec in Hrun as (added & -> & Hsub & Hrec).
  split; [done|]. intros r Hr.
  destruct (Hrec r Hr) as (version & Hv & H1 & H2 & Hun & Hnew).
  exists version. do 3 (split; [done|]).
  unfold UpdateComposeVersions.unhelpful in Hun.
  repeat split; try done; intros Heq; rewrite Heq in Hun; by vm_compute in Hun.
Qed.

(** X19, witness: the services [cache] and [db], of which [db] has the
    pinned image [redis:7.2]. *)
Lemma update_versions_records_witness :
  sublist
    (map (λ r, (UpdateComposeVersions.service r,
                Some (UpdateComposeVersions.old_image r)))
       [ {| UpdateComposeVersions.service := str "cache";
            UpdateComposeVersions.old_image := str "qdrant/qdrant:latest";
            UpdateComposeVersions.new_image := str "qdrant/qdrant:v1.9.0" |} ])
    [ (str "cache", Some (str "qdrant/qdrant:latest"));
      (str "db", Some (str "redis:7.2")) ].
Proof.
  apply (update_versions_records
           (str "  image: qdrant/qdrant:latest")
           [ (str "cache", Some (str "qdrant/qdrant:latest"));
             (str "db", Some (str "redis:7.2")) ]
           (<[ str "redis" := Some (str "7.4") ]> Examples.qdrant_versions)
           (str "  image: qdrant/qdrant:v1.9.0")).
  by vm_compute.
Defined.

(** X20.  [update_versions] returns, without an error from [re.sub], when no
    image of a service holds a backslash or starts with a decimal digit and
    no stored version holds a backslash. *)
Theorem update_versions_returns :
  ∀ (content : text) (services : list (text * option text))
    (cv : gmap text (option text)),
    (∀ name image, (name, Some image) ∈ services →
       contains_char 92 image = false ∧
       match image with c :: _ => is_decimal c = false | [] => True end) →
    (∀ k v, cv !! k = Some (Some v) → contains_char 92 v = false) →
    is_Some (UpdateComposeVersions.update_versions content services cv).
Proof.
  intros content services cv Himg Hcv. by apply update_services_returns.
Qed.

(** X20, witness: the service [cache] with [qdrant/qdrant:latest]. *)
Lemma update_versions_returns_witness :
  is_Some (UpdateComposeVersions.update_versions
             (str "  image: qdrant/qdrant:latest")
             [ (str "cache", Some (str "qdrant/qdrant:latest")) ]
             Examples.qdrant_versions).
Proof.
  apply update_versions_returns.
  - intros name image [[= _ ->]|[]%elem_of_nil]%elem_of_cons. by vm_compute.
  - intros k v Hkv. unfold Examples.qdrant_versions in Hkv.
    apply lookup_singleton_Some in Hkv as [_ [= <-]]. by vm_compute.
Defined.

(** X21.  When no service has a usable version, its repository being absent
    from the stored versions or stored with null, [latest] or [UNKNOWN],
    [update_versions] returns the document as it is and no record. *)
Theorem update_versions_without_versions :
  ∀ (content : text) (services : list (text * option text))
    (cv : gmap text (option text)),
    (∀ name image v, (name, Some image) ∈ services →
       cv !! Image.container image = Some (Some v) →
       v = str "latest" ∨ v = str "UNKNOWN") →
    UpdateComposeVersions.update_versions content services cv
    = Some (content, []).
Proof.
  intros content services cv Hno. unfold UpdateComposeVersions.update_versions.
  generalize (content, @nil UpdateComposeVersions.change). intros acc.
  revert acc. induction services as [|[name [image|]] services IH]; intros acc.
  - done.
  - cbn [UpdateComposeVersions.update_services].
    rewrite update_service_no_version.
    + apply IH. intros n i v Hin. apply (Hno n). by right.
    + intros v. apply (Hno name). by left.
  - cbn [UpdateComposeVersions.update_services].
    apply IH. intros n i v Hin. apply (Hno n). by right.
Qed.

(** X21, witness: a repository stored with [latest] and one not stored. *)
Lemma update_versions_without_versions_witness :
  UpdateComposeVersions.update_versions
    (str "  image: qdrant/qdrant:latest")
    [ (str "cache", Some (str "qdrant/qdrant:latest"));
      (str "db", Some (str "redis")) ]
    {[ str "qdrant/qdrant" := Some (str "latest") ]}
  = Some (str "  image: qdrant/qdrant:latest", []).
Proof.
  apply update_versions_without_versions.
  intros name image v Hin Hv.
  apply elem_of_cons in Hin as [[= _ ->]|Hin].
  - vm_compute in Hv. injection Hv as <-. by left.
  - apply elem_of_cons in Hin as [[= _ ->]|[]%elem_of_nil].
    by vm_compute in Hv.
Defined.
